(** * Noise Alert: the monitoring engine of [noise_alert.py]

    A shallow embedding of the core of [noise_alert.py]: the numeric helpers
    ([linspace], [clip], [mean], [sign]), the tone synthesizer ([gen_wave],
    [play_tone]), the monitor thread ([Monitor.run], [Monitor.rms_to_db]),
    the shared state ([SharedState]), the web endpoints that touch it
    ([start_monitoring_web], [send_message]) and the calibration routine
    ([calibrate]).

    Conventions.
    - Python [float] values are modelled by real numbers [R]: rounding error,
      NaN and the infinities are outside the model.  What Python reports as
      an exception of the [math] module (a domain error of [math.log10] or
      [math.sqrt], a division by zero) is kept, through the [outcome] type.
    - Python [int] values are modelled by [Z].
    - Python [str] values are modelled by [string]; a character is a code
      point below 256.
    - Exceptions are explicit: a computation that may raise has type
      [outcome A]; [try_except] is the [try: ... except Exception as e:]
      statement.
    - Device input and output are given by the caller of the model as the
      outcome the device produced (an oracle); what the program did to the
      outside world is recorded in an effect trace. *)

From Stdlib Require Import Reals Lra Lia ZArith List String Ascii Bool.
From Stdlib Require Import Strings.Byte.
Import ListNotations.

Local Open Scope string_scope.
Local Open Scope list_scope.
Local Open Scope Z_scope.
Local Open Scope R_scope.

(** ** Python runtime *)

Module Py.

(** An exception object: its class name and [str(e)]. *)
Record exn : Type := Exn { exn_class : string; exn_str : string }.

Inductive outcome (A : Type) : Type :=
| Ret (a : A)
| Raise (e : exn).
Arguments Ret {A} a.
Arguments Raise {A} e.

Definition bind {A B : Type} (m : outcome A) (k : A -> outcome B) : outcome B :=
  match m with
  | Ret a => k a
  | Raise e => Raise e
  end.

(** [try: body  except Exception as e: handler e] *)
Definition try_except {A : Type} (body : outcome A) (handler : exn -> outcome A)
  : outcome A :=
  match body with
  | Ret a => Ret a
  | Raise e => handler e
  end.

Definition ZeroDivisionError : exn := Exn "ZeroDivisionError" "division by zero".
Definition MathDomainError : exn := Exn "ValueError" "math domain error".
Definition StructError : exn :=
  Exn "struct.error" "short format requires (-32768) <= number <= 32767".
Definition AttributeError (what : string) : exn := Exn "AttributeError" what.

(** *** Strings *)

(** [str.isspace] on one character, for code points below 256. *)
Definition isspace (c : ascii) : bool :=
  let n := nat_of_ascii c in
  ((9 <=? n)%nat && (n <=? 13)%nat)
  || ((28 <=? n)%nat && (n <=? 32)%nat)
  || (n =? 133)%nat || (n =? 160)%nat.

Fixpoint dropwhile {A : Type} (p : A -> bool) (l : list A) : list A :=
  match l with
  | [] => []
  | x :: l' => if p x then dropwhile p l' else l
  end.

Definition lstrip_chars (l : list ascii) : list ascii := dropwhile isspace l.
Definition rstrip_chars (l : list ascii) : list ascii :=
  rev (dropwhile isspace (rev l)).

(** [s.strip()] *)
Definition strip (s : string) : string :=
  string_of_list_ascii (rstrip_chars (lstrip_chars (list_ascii_of_string s))).

(** Truth value of a string: [not s] is [true] exactly for the empty one. *)
Definition truthy (s : string) : bool :=
  match s with
  | EmptyString => false
  | String _ _ => true
  end.

(** [len(s)] *)
Definition len (s : string) : Z := Z.of_nat (String.length s).

(** *** Numbers *)

(** [max(a, b)] and [min(a, b)] return the first argument unless the
    second one is strictly better. *)
Definition max (a b : R) : R := if Rlt_dec a b then b else a.
Definition min (a b : R) : R := if Rlt_dec b a then b else a.

(** [math.floor(x)] *)
Definition floor (x : R) : Z := Int_part x.

(** [int(x)] on a float: truncation toward zero. *)
Definition int (x : R) : Z :=
  if Rle_dec 0 x then Int_part x else (- Int_part (- x))%Z.

(** [math.sqrt(x)], a domain error below zero. *)
Definition sqrt (x : R) : outcome R :=
  if Rlt_dec x 0 then Raise MathDomainError else Ret (R_sqrt.sqrt x).

(** [math.log10(x)], a domain error at and below zero. *)
Definition log10 (x : R) : outcome R :=
  if Rlt_dec 0 x then Ret (ln x / ln 10) else Raise MathDomainError.

(** [math.isfinite(x)]: every real number is finite. *)
Definition isfinite (x : R) : bool := true.

(** The nearest integer, ties to the even one. *)
Definition round_half_even (x : R) : Z :=
  let f := Int_part x in
  let d := x - IZR f in
  if Rlt_dec d (1 / 2) then f
  else if Rlt_dec (1 / 2) d then (f + 1)%Z
  else if Z.even f then f else (f + 1)%Z.

(** [round(x, 1)] *)
Definition round1 (x : R) : R := IZR (round_half_even (x * 10)) / 10.

(** [sum(values)] *)
Definition sum (values : list R) : R := fold_left Rplus values 0.

(** [range(n)] *)
Definition range (n : Z) : list Z := map Z.of_nat (seq 0 (Z.to_nat n)).

End Py.

Import Py.

Notation "x <- m ;; k" := (bind m (fun x => k))
  (at level 61, m at next level, right associativity).

(** ** Numeric helpers of the program *)

(** [linspace(start, stop, num)] *)
Definition linspace (start stop : R) (num : Z) : list R :=
  if (num <=? 1)%Z then [start]
  else
    let step := (stop - start) / IZR (num - 1) in
    map (fun i => start + step * IZR i) (range num).

(** [clip(value, min_val, max_val)] on a list. *)
Definition clip (value : list R) (min_val max_val : R) : list R :=
  map (fun v => Py.max min_val (Py.min max_val v)) value.

(** [mean(values)] *)
Definition mean (values : list R) : outcome R :=
  match values with
  | [] => Raise ZeroDivisionError
  | _ :: _ => Ret (sum values / INR (List.length values))
  end.

(** [sign(x)] on one number and on a list. *)
Definition sign1 (v : R) : R :=
  if Rlt_dec 0 v then 1 else if Rlt_dec v 0 then -1 else 0.
Definition sign (x : list R) : list R := map sign1 x.

(** ** Stateful code: a state and exception monad *)

Module St.

(** A program over a state [S]: it returns or raises, and leaves a state
    behind in both cases. *)
Definition prog (S A : Type) : Type := S -> outcome A * S.

Definition ret {S A : Type} (a : A) : prog S A := fun s => (Ret a, s).

Definition raise {S A : Type} (e : exn) : prog S A := fun s => (Raise e, s).

Definition lift {S A : Type} (o : outcome A) : prog S A := fun s => (o, s).

Definition bind {S A B : Type} (m : prog S A) (k : A -> prog S B) : prog S B :=
  fun s =>
    match m s with
    | (Ret a, s') => k a s'
    | (Raise e, s') => (Raise e, s')
    end.

Definition get {S : Type} : prog S S := fun s => (Ret s, s).

Definition modify {S : Type} (f : S -> S) : prog S unit := fun s => (Ret tt, f s).

(** [try: body  except Exception as e: handler e]; the handler starts from
    the state the body left. *)
Definition try_except {S A : Type} (body : prog S A) (handler : exn -> prog S A)
  : prog S A :=
  fun s =>
    match body s with
    | (Ret a, s') => (Ret a, s')
    | (Raise e, s') => handler e s'
    end.

End St.

Notation "x <~ m ;; k" := (St.bind m (fun x => k))
  (at level 61, m at next level, right associativity).
Notation "m ;;; k" := (St.bind m (fun _ => k))
  (at level 61, right associativity).

(** ** Shared state *)

(** The speech engine after [pyttsx3.init()] and the two [setProperty] calls. *)
Record TtsEngine : Type := { tts_rate : Z; tts_volume : R }.

Record Config : Type := { cfg_thresh : option R; cfg_web_port : option Z }.

Record SharedState : Type := {
  threshold : R;
  is_monitoring : bool;
  current_db : R;
  web_server_enabled : bool;
  web_server_port : Z;
  web_start_requested : bool;
  web_stop_requested : bool;
  current_device : Z;
  tts_queue : list string;          (* oldest message first *)
  tts_engine : option TtsEngine     (* [None] when the engine failed to start *)
}.

Module SharedStateOps.

(** [SharedState.__init__(cfg)]; [engine_init] is what [pyttsx3.init()] did. *)
Definition init (cfg : Config) (engine_init : outcome unit) : SharedState :=
  {| threshold := match cfg_thresh cfg with Some t => t | None => -30 end;
     is_monitoring := false;
     current_db := -100;
     web_server_enabled := false;
     web_server_port := match cfg_web_port cfg with Some p => p | None => 8080%Z end;
     web_start_requested := false;
     web_stop_requested := false;
     current_device := 0%Z;
     tts_queue := [];
     tts_engine :=
       match engine_init with
       | Ret _ => Some {| tts_rate := 150; tts_volume := 9 / 10 |}
       | Raise _ => None
       end |}.

Definition set_flags (start stop : bool) (s : SharedState) : SharedState :=
  {| threshold := threshold s;
     is_monitoring := is_monitoring s;
     current_db := current_db s;
     web_server_enabled := web_server_enabled s;
     web_server_port := web_server_port s;
     web_start_requested := start;
     web_stop_requested := stop;
     current_device := current_device s;
     tts_queue := tts_queue s;
     tts_engine := tts_engine s |}.

Definition set_tts_queue (q : list string) (s : SharedState) : SharedState :=
  {| threshold := threshold s;
     is_monitoring := is_monitoring s;
     current_db := current_db s;
     web_server_enabled := web_server_enabled s;
     web_server_port := web_server_port s;
     web_start_requested := web_start_requested s;
     web_stop_requested := web_stop_requested s;
     current_device := current_device s;
     tts_queue := q;
     tts_engine := tts_engine s |}.

(** [update_threshold(value)] *)
Definition update_threshold (value : R) (s : SharedState) : SharedState :=
  {| threshold := value;
     is_monitoring := is_monitoring s;
     current_db := current_db s;
     web_server_enabled := web_server_enabled s;
     web_server_port := web_server_port s;
     web_start_requested := web_start_requested s;
     web_stop_requested := web_stop_requested s;
     current_device := current_device s;
     tts_queue := tts_queue s;
     tts_engine := tts_engine s |}.

(** [add_tts_message(message)]:
    [if self.tts_engine and message.strip(): self.tts_queue.put(message)] *)
Definition add_tts_message (message : string) (s : SharedState) : SharedState :=
  match tts_engine s with
  | Some _ =>
      if truthy (strip message) then set_tts_queue (tts_queue s ++ [message]) s
      else s
  | None => s
  end.

(** [check_web_requests()]: read both flags, clear both, return what was read. *)
Definition check_web_requests (s : SharedState) : (bool * bool) * SharedState :=
  let start_req := web_start_requested s in
  let stop_req := web_stop_requested s in
  ((start_req, stop_req), set_flags false false s).

End SharedStateOps.

Import SharedStateOps.

(** ** Web endpoints *)

(** A parsed JSON value, as [request.get_json()] returns it. *)
Unset Elimination Schemes.
Inductive json : Type :=
| JNull
| JBool (b : bool)
| JNum (n : Z)
| JStr (s : string)
| JArr (items : list json)
| JObj (fields : list (string * json)).
Set Elimination Schemes.

(** The body of [jsonify(...)]: the keys the handlers use. *)
Record Response : Type := {
  success : bool;
  error : option string;
  message : option string
}.

Module Web.

(** [data.get(key, default)]: only a [dict] has the method. *)
Definition get (data : json) (key : string) (default : json) : outcome json :=
  match data with
  | JObj fields =>
      match find (fun kv => String.eqb (fst kv) key) fields with
      | Some kv => Ret (snd kv)
      | None => Ret default
      end
  | _ => Raise (AttributeError "object has no attribute 'get'")
  end.

(** [v.strip()]: only a [str] has the method. *)
Definition strip_of (v : json) : outcome string :=
  match v with
  | JStr s => Ret (strip s)
  | _ => Raise (AttributeError "object has no attribute 'strip'")
  end.

(** [start_monitoring_web()] *)
Definition start_monitoring_web (s : SharedState) : Response * SharedState :=
  ({| success := true; error := None; message := None |},
   set_flags true (web_stop_requested s) s).

(** [stop_monitoring_web()] *)
Definition stop_monitoring_web (s : SharedState) : Response * SharedState :=
  ({| success := true; error := None; message := None |},
   set_flags (web_start_requested s) true s).

(** The [try] block of [send_message]. *)
Definition send_message_body (get_json : outcome json)
  : St.prog SharedState Response :=
  data <~ St.lift get_json ;;
  raw <~ St.lift (get data "message" (JStr "")) ;;
  message <~ St.lift (strip_of raw) ;;
  if negb (truthy message) then
    St.ret {| success := false; error := Some "No message provided";
              message := None |}
  else if (500 <? len message)%Z then
    St.ret {| success := false;
              error := Some "Message too long (max 500 characters)";
              message := None |}
  else
    St.modify (add_tts_message message) ;;;
    St.ret {| success := true; error := None;
              message := Some "Message queued for speech" |}.

(** [send_message()]; [get_json] is what [request.get_json()] did. *)
Definition send_message (get_json : outcome json)
  : St.prog SharedState Response :=
  St.try_except (send_message_body get_json)
    (fun e => St.ret {| success := false; error := Some (exn_str e);
                        message := None |}).

End Web.

(** ** Effects on the outside world *)

Inductive event : Type :=
| EvPrint (line : string)
| EvCapture (device rate frames : Z)
| EvPlay (device : option Z) (audio : list byte) (rate : Z)
| EvSleep (seconds : R).

(** [print(line)] *)
Definition print (line : string) : St.prog (list event) unit :=
  St.modify (fun w => w ++ [EvPrint line]).

(** ** Tone synthesizer *)

Module Tone.

Definition byte_of_Z (z : Z) : byte :=
  match Byte.of_N (Z.to_N (z mod 256)) with
  | Some b => b
  | None => x00
  end.

Definition Z_of_byte (b : byte) : Z := Z.of_N (Byte.to_N b).

(** One value under the format ['<h']: two bytes, low byte first, two's
    complement; [struct.error] out of the 16-bit range. *)
Definition pack_h (v : Z) : outcome (list byte) :=
  if ((-32768 <=? v) && (v <=? 32767))%Z then
    let u := (v mod 65536)%Z in
    Ret [byte_of_Z u; byte_of_Z (u / 256)]
  else Raise StructError.

(** [struct.pack('<' + 'h' * len(audio), *audio)] *)
Fixpoint struct_pack_h (audio : list Z) : outcome (list byte) :=
  match audio with
  | [] => Ret []
  | v :: rest =>
      b <- pack_h v ;;
      bs <- struct_pack_h rest ;;
      Ret (b ++ bs)
  end.

(** The 16-bit signed samples a byte string holds (the reading of ['<h']). *)
Definition unpack_h (lo hi : byte) : Z :=
  let u := (Z_of_byte lo + 256 * Z_of_byte hi)%Z in
  if (u <? 32768)%Z then u else (u - 65536)%Z.

Fixpoint samples (audio_bytes : list byte) : list Z :=
  match audio_bytes with
  | lo :: hi :: rest => unpack_h lo hi :: samples rest
  | _ => []
  end.

(** [gen_wave(shape, freq, ms, volume)] *)
Definition gen_wave (shape : string) (freq ms volume : Z)
  : outcome (list byte * Z) :=
  let fs := 44100%Z in
  let t := linspace 0 (IZR ms / 1000) (Py.int (IZR (fs * ms) / 1000)) in
  let wave :=
    if String.eqb shape "Sine" then
      map (fun ti => sin (2 * PI * IZR freq * ti)) t
    else if String.eqb shape "Square" then
      sign (map (fun ti => sin (2 * PI * IZR freq * ti)) t)
    else
      map (fun ti => 2 * (ti * IZR freq - IZR (Py.floor (0.5 + ti * IZR freq)))) t in
  let audio := map (fun w => Py.int (w * (IZR volume / 100) * 32767)) wave in
  audio_bytes <- struct_pack_h audio ;;
  Ret (audio_bytes, fs).

(** Opening the output stream, writing and closing it; [playback] is what the
    device did. *)
Definition stream_write (playback : outcome unit) (device : option Z)
  (audio_bytes : list byte) (rate : Z) : St.prog (list event) unit :=
  match playback with
  | Ret _ => St.modify (fun w => w ++ [EvPlay device audio_bytes rate])
  | Raise e => St.raise e
  end.

(** [play_tone(shape, freq, ms, vol, device)] *)
Definition play_tone (playback : outcome unit) (shape : string)
  (freq ms vol : Z) (device : option Z) : St.prog (list event) unit :=
  St.try_except
    (r <~ St.lift (gen_wave shape freq ms vol) ;;
     stream_write playback device (fst r) (snd r))
    (fun e => print (String.append "Error playing tone: " (exn_str e))).

End Tone.

Import Tone.

(** ** Monitor thread *)

Inductive ui_msg : Type :=
| DB (db : R)
| ERR (msg : string).

(** The settings dictionary [push_settings] puts on [q_cmd]. *)
Record Settings : Type := {
  thresh : R;
  shape : string;
  freq : Z;
  dur : Z;
  vol : Z;
  fs : Z;
  chunk : R;
  delay : R;
  device : Z;
  output_device : option Z;
  web_enabled : bool;
  web_port : Z
}.

(** The monitor object and the local variable [settings] of [run]
    ([None] is the empty dictionary). *)
Record MonitorState : Type := {
  settings : option Settings;
  q_ui : list ui_msg;               (* oldest message first *)
  stop_evt : bool;
  trace : list event
}.

(** What the outside world does during one iteration of the loop. *)
Record cycle_env : Type := {
  stop_pressed : bool;              (* [stop_evt] set from outside before the test *)
  pushed : list Settings;           (* put on [q_cmd] since the last drain *)
  capture : outcome (list R);       (* opening and reading the input device *)
  playback : outcome unit           (* opening and writing the output device *)
}.

Inductive ctl : Type := Continue | Break.

Inductive thread_status : Type :=
| Alive
| Returned
| Died (e : exn).

Module Monitor.

Definition new : MonitorState :=
  {| settings := None; q_ui := []; stop_evt := false; trace := [] |}.

Definition set_settings (v : option Settings) (m : MonitorState) : MonitorState :=
  {| settings := v; q_ui := q_ui m; stop_evt := stop_evt m; trace := trace m |}.

Definition set_stop_evt (b : bool) (m : MonitorState) : MonitorState :=
  {| settings := settings m; q_ui := q_ui m; stop_evt := b; trace := trace m |}.

Definition set_trace (w : list event) (m : MonitorState) : MonitorState :=
  {| settings := settings m; q_ui := q_ui m; stop_evt := stop_evt m; trace := w |}.

(** [self.q_ui.put(msg)] *)
Definition q_ui_put (msg : ui_msg) : St.prog MonitorState unit :=
  St.modify (fun m =>
    {| settings := settings m; q_ui := q_ui m ++ [msg];
       stop_evt := stop_evt m; trace := trace m |}).

(** A program on the outside world, run from the thread. *)
Definition on_trace {A : Type} (p : St.prog (list event) A)
  : St.prog MonitorState A :=
  fun m => let (r, w) := p (trace m) in (r, set_trace w m).

(** [time.sleep(seconds)] *)
Definition sleep (seconds : R) : St.prog MonitorState unit :=
  on_trace (St.modify (fun w => w ++ [EvSleep seconds])).

(** [while 1: settings = self.q_cmd.get_nowait()] until [queue.Empty]. *)
Definition drain (queued : list Settings) (m : MonitorState) : MonitorState :=
  fold_left (fun m' s => set_settings (Some s) m') queued m.

(** [rms_to_db(rms)] *)
Definition rms_to_db (rms : R) : outcome R :=
  l <- log10 (rms + 1e-10) ;;
  Ret (20 * l).

(** The loudness of a capture buffer:
    [clip], [math.sqrt(mean([r*r ...]))], [rms_to_db]. *)
Definition loudness (rec_flat : list R) : outcome R :=
  let rec_clipped := clip rec_flat (-1) 1 in
  m <- mean (map (fun r => r * r) rec_clipped) ;;
  rms <- Py.sqrt m ;;
  rms_to_db rms.

(** The inner [try] of [run]: open the input stream, read and decode. *)
Definition read_input (captured : outcome (list R)) (s : Settings) (frames : Z)
  : St.prog MonitorState (list R) :=
  on_trace (St.modify (fun w => w ++ [EvCapture (device s) (fs s) frames])) ;;;
  St.lift captured.

(** One iteration of the [while] loop of [run], after its test. *)
Definition body (env : cycle_env) : St.prog MonitorState ctl :=
  St.modify (drain (pushed env)) ;;;
  m <~ St.get ;;
  match settings m with
  | None => sleep (1 / 10) ;;; St.ret Continue
  | Some s =>
      let frames := Py.int (chunk s * IZR (fs s)) in
      r <~ St.try_except
             (rec_flat <~ read_input (capture env) s frames ;;
              St.ret (Some rec_flat))
             (fun e =>
                q_ui_put (ERR (exn_str e)) ;;;
                St.modify (set_stop_evt true) ;;;
                St.ret None) ;;
      match r with
      | None => St.ret Break
      | Some rec_flat =>
          db <~ St.lift (loudness rec_flat) ;;
          q_ui_put (DB db) ;;;
          (if Rlt_dec (thresh s) db then
             on_trace (play_tone (playback env) (shape s) (freq s) (dur s)
                         (vol s) (output_device s))
           else St.ret tt) ;;;
          sleep (delay s) ;;;
          St.ret Continue
      end
  end.

(** [run()], along the iterations the environment list describes. The
    thread is [Alive] when the list ends inside the loop. *)
Fixpoint run (envs : list cycle_env) (m : MonitorState)
  : thread_status * MonitorState :=
  match envs with
  | [] => (Alive, m)
  | env :: rest =>
      let m0 := set_stop_evt (stop_evt m || stop_pressed env) m in
      if stop_evt m0 then (Returned, m0)
      else
        match body env m0 with
        | (Ret Continue, m') => run rest m'
        | (Ret Break, m') => (Returned, m')
        | (Raise e, m') => (Died e, m')
        end
  end.

End Monitor.

(** ** Calibration *)

Inductive dialog : Type :=
| ShowError (title text : string)
| ShowInfo (title : string) (ambient new_value : R).

(** The part of the control panel [calibrate] can reach: the shared state,
    the threshold slider's variable and the dialogs shown so far. *)
Record App : Type := {
  shared : SharedState;
  th_var : R;
  dialogs : list dialog
}.

Module Calibration.

(** [messagebox.showerror(title, text)], after the progress window is closed. *)
Definition showerror (title text : string) : St.prog App unit :=
  St.modify (fun a =>
    {| shared := shared a; th_var := th_var a;
       dialogs := dialogs a ++ [ShowError title text] |}).

(** [messagebox.showinfo(title, ...)] with the two numbers it prints. *)
Definition showinfo (title : string) (ambient new_value : R) : St.prog App unit :=
  St.modify (fun a =>
    {| shared := shared a; th_var := th_var a;
       dialogs := dialogs a ++ [ShowInfo title ambient new_value] |}).

(** The value a slider made with [from_=-60, to=0] takes when set to [v]. *)
Definition scale_value (v : R) : R := Py.max (-60) (Py.min 0 v).

(** [thresh_scale.set(v)]: the slider keeps the value within its range,
    stores it in [th_var] and calls its command, [on_threshold_change],
    which stores it in the shared state. *)
Definition thresh_scale_set (v : R) : St.prog App unit :=
  St.modify (fun a =>
    {| shared := update_threshold (scale_value v) (shared a);
       th_var := scale_value v;
       dialogs := dialogs a |}).

(** [r == 0] *)
Definition is_zero (r : R) : bool := if Req_dec_T r 0 then true else false.

(** [len(rec_flat) == 0 or all(r == 0 for r in rec_flat)] *)
Definition no_signal (rec_flat : list R) : bool :=
  (Z.of_nat (List.length rec_flat) =? 0)%Z || forallb is_zero rec_flat.

(** The ambient level: from [rec_clipped] to the first [isfinite] test. *)
Definition ambient_level (rec_flat : list R) : outcome R :=
  let rec_clipped := clip rec_flat (-1) 1 in
  m <- mean (map (fun r => r * r) rec_clipped) ;;
  rms <- Py.sqrt m ;;
  ambient <- (if Rlt_dec rms 1e-10 then Ret (-100)
              else l <- log10 rms ;; Ret (20 * l)) ;;
  Ret (if isfinite ambient then ambient else -100).

(** The suggested threshold: from [round] to the second [isfinite] test. *)
Definition suggested (ambient : R) : R :=
  let new_threshold := round1 (ambient + 10) in
  let new_value := Py.max new_threshold (-50) in
  if isfinite new_value then new_value else -30.

(** [calibrate()]; [device_idx] is the index of the selected input device
    ([-1] when none) and [captured] what the two-second recording did. *)
Definition calibrate (device_idx : Z) (captured : outcome (list R))
  : St.prog App unit :=
  if (device_idx =? -1)%Z then
    showerror "Calibration Error" "No valid input device selected."
  else
    r <~ St.try_except
           (rec_flat <~ St.lift captured ;; St.ret (Some rec_flat))
           (fun e =>
              showerror "Calibration Error"
                (String.append "Could not record audio: " (exn_str e)) ;;;
              St.ret None) ;;
    match r with
    | None => St.ret tt
    | Some rec_flat =>
        if no_signal rec_flat then
          showerror "Calibration Error"
            "No audio data received. Please check your microphone."
        else
          ambient <~ St.lift (ambient_level rec_flat) ;;
          let new_value := suggested ambient in
          thresh_scale_set new_value ;;;
          showinfo "Calibration Complete" ambient new_value
    end.

End Calibration.

(** ** Values used in the statements *)

(** A list whose first element, if any, fails [p]. *)
Definition starts_clean {A : Type} (p : A -> bool) (l : list A) : Prop :=
  match l with
  | [] => True
  | x :: _ => p x = false
  end.

(** The three answers of [send_message] to a string message. *)
Definition resp_empty : Response :=
  {| success := false; error := Some "No message provided"; message := None |}.

Definition resp_too_long : Response :=
  {| success := false; error := Some "Message too long (max 500 characters)";
     message := None |}.

Definition resp_queued : Response :=
  {| success := true; error := None;
     message := Some "Message queued for speech" |}.

Definition default_cfg : Config := {| cfg_thresh := None; cfg_web_port := None |}.

(** The shared state at start-up, with and without a speech engine. *)
Definition state_with_engine : SharedState := init default_cfg (Ret tt).

Definition state_without_engine : SharedState :=
  init default_cfg (Raise (Exn "RuntimeError" "no speech driver")).

Definition hi_request : json := JObj [("message", JStr " hi ")].

(** A message of [n] letters, and the request that carries it. *)
Definition letters (n : nat) : string := string_of_list_ascii (repeat "a"%char n).

Definition letters_request (n : nat) : json := JObj [("message", JStr (letters n))].

(** The control panel at start-up, threshold slider at its default. *)
Definition idle_app : App :=
  {| shared := state_with_engine; th_var := -30; dialogs := [] |}.

(** ** The tone formulas of the specification *)

(** The three shapes, and the names the control panel gives them. *)
Inductive Shape : Type := Sine | Square | Sawtooth.

Definition shape_name (sh : Shape) : string :=
  match sh with
  | Sine => "Sine"
  | Square => "Square"
  | Sawtooth => "Saw"
  end.

(** The waveform at time [t], in the specification's words: the sine, the
    sign of the sine, and the ramp [2 (f t - floor (0.5 + f t))]. *)
Definition spec_wave (sh : Shape) (f t : R) : R :=
  match sh with
  | Sine => sin (2 * PI * f * t)
  | Square =>
      let s := sin (2 * PI * f * t) in
      if Rlt_dec 0 s then 1 else if Rlt_dec s 0 then -1 else 0
  | Sawtooth => 2 * (f * t - IZR (Int_part (1 / 2 + f * t)))
  end.

(** The sample at time [t]: scaled by [volume / 100], multiplied by 32767
    and truncated toward zero. *)
Definition spec_sample (sh : Shape) (f volume t : R) : Z :=
  Py.int (spec_wave sh f t * (volume / 100) * 32767).

(** The range of a 16-bit signed sample. *)
Definition in_int16 (v : Z) : Prop := (-32768 <= v <= 32767)%Z.

(** The integer nearest to [a / b] for [b > 0], ties to the even one. *)
Definition round_div (a b : Z) : Z :=
  let q := (a / b)%Z in
  let r := (a mod b)%Z in
  if (2 * r <? b)%Z then q
  else if (b <? 2 * r)%Z then (q + 1)%Z
  else if Z.even q then q else (q + 1)%Z.

(** ** Monitor runs used in the statements *)

(** The capture event of one cycle under settings [s]. *)
Definition capture_event (s : Settings) : event :=
  EvCapture (device s) (fs s) (Py.int (chunk s * IZR (fs s))).

(** Settings as [push_settings] builds them, with the given threshold. *)
Definition settings_at (th : R) : Settings :=
  {| thresh := th; shape := "Sine"; freq := 1000; dur := 200; vol := 50;
     fs := 44100; chunk := 1 / 10; delay := 2 / 100; device := 0;
     output_device := None; web_enabled := false; web_port := 8080 |}.

Definition device_lost : exn := Exn "OSError" "device unavailable".

(** A cycle in which the input device fails. *)
Definition capture_fails : cycle_env :=
  {| stop_pressed := false; pushed := [settings_at (-30)];
     capture := Raise device_lost; playback := Ret tt |}.

(** A cycle that records silence above the threshold while the output
    device fails. *)
Definition playback_fails : cycle_env :=
  {| stop_pressed := false; pushed := [settings_at (-300)];
     capture := Ret [0; 0; 0]; playback := Raise device_lost |}.

(** * The rest of the engine *)

From Stdlib Require Import Sorted.

(** ** Shared state: the other accessors *)

(** The dictionary [get_state] returns. *)
Record StateView : Type := {
  view_threshold : R;
  view_is_monitoring : bool;
  view_current_db : R
}.

Module SharedStateView.

(** [update_monitoring(status)] *)
Definition update_monitoring (status : bool) (s : SharedState) : SharedState :=
  {| threshold := threshold s;
     is_monitoring := status;
     current_db := current_db s;
     web_server_enabled := web_server_enabled s;
     web_server_port := web_server_port s;
     web_start_requested := web_start_requested s;
     web_stop_requested := web_stop_requested s;
     current_device := current_device s;
     tts_queue := tts_queue s;
     tts_engine := tts_engine s |}.

(** [update_current_db(value)] *)
Definition update_current_db (value : R) (s : SharedState) : SharedState :=
  {| threshold := threshold s;
     is_monitoring := is_monitoring s;
     current_db := value;
     web_server_enabled := web_server_enabled s;
     web_server_port := web_server_port s;
     web_start_requested := web_start_requested s;
     web_stop_requested := web_stop_requested s;
     current_device := current_device s;
     tts_queue := tts_queue s;
     tts_engine := tts_engine s |}.

(** [get_state()] *)
Definition get_state (s : SharedState) : StateView :=
  {| view_threshold := threshold s;
     view_is_monitoring := is_monitoring s;
     view_current_db := current_db s |}.

End SharedStateView.

Import SharedStateView.

(** ** Speech worker *)

Inductive tts_event : Type :=
| TtsPrint (line : string)
| TtsSay (message : string).       (* [say] and [runAndWait] completed *)

(** The worker thread: the shared state it drains, its stop event and what
    it printed and spoke. *)
Record WorkerState : Type := {
  w_shared : SharedState;
  w_stop_event : bool;
  w_trace : list tts_event
}.

(** What the outside world does during one iteration of the worker. *)
Record tts_env : Type := {
  tts_stop_set : bool;              (* [stop()] called before the test *)
  arrivals : list string;           (* put on [tts_queue] before the [get] returns *)
  speech : outcome unit             (* what [say] and [runAndWait] do *)
}.

Module TTSWorker.

Definition QueueEmpty : exn := Exn "queue.Empty" "".

Definition new (shared_state : SharedState) : WorkerState :=
  {| w_shared := shared_state; w_stop_event := false; w_trace := [] |}.

Definition set_shared (s : SharedState) (w : WorkerState) : WorkerState :=
  {| w_shared := s; w_stop_event := w_stop_event w; w_trace := w_trace w |}.

Definition set_stop_event (b : bool) (w : WorkerState) : WorkerState :=
  {| w_shared := w_shared w; w_stop_event := b; w_trace := w_trace w |}.

Definition emit (ev : tts_event) : St.prog WorkerState unit :=
  St.modify (fun w =>
    {| w_shared := w_shared w; w_stop_event := w_stop_event w;
       w_trace := w_trace w ++ [ev] |}).

(** Messages other threads put on the queue. *)
Definition arrive (messages : list string) (w : WorkerState) : WorkerState :=
  set_shared (set_tts_queue (tts_queue (w_shared w) ++ messages) (w_shared w)) w.

(** [self.shared_state.tts_queue.get(timeout=1.0)]: the oldest message, or
    [queue.Empty] when the second passed with nothing on the queue. *)
Definition queue_get : St.prog WorkerState string :=
  fun w =>
    match tts_queue (w_shared w) with
    | [] => (Raise QueueEmpty, w)
    | m :: rest => (Ret m, set_shared (set_tts_queue rest (w_shared w)) w)
    end.

(** [tts_engine.say(message)] and [tts_engine.runAndWait()] *)
Definition say (spoken : outcome unit) (message : string)
  : St.prog WorkerState unit :=
  match spoken with
  | Ret _ => emit (TtsSay message)
  | Raise e => St.raise e
  end.

(** One iteration of the [while] loop of [run], after its test. The
    bookkeeping of [task_done] has no reader ([join] is never called on the
    queue) and is left out. *)
Definition body (env : tts_env) : St.prog WorkerState unit :=
  St.modify (arrive (arrivals env)) ;;;
  St.try_except
    (message <~ queue_get ;;
     w <~ St.get ;;
     match tts_engine (w_shared w) with
     | Some _ =>
         emit (TtsPrint (String.append "Speaking: " message)) ;;;
         say (speech env) message
     | None => St.ret tt
     end)
    (fun e =>
       if String.eqb (exn_class e) "queue.Empty" then St.ret tt
       else emit (TtsPrint (String.append "TTS error: " (exn_str e)))).

(** [run()], along the iterations the environment list describes. *)
Fixpoint run (envs : list tts_env) (w : WorkerState)
  : thread_status * WorkerState :=
  match envs with
  | [] => (Alive, w)
  | env :: rest =>
      let w0 := set_stop_event (w_stop_event w || tts_stop_set env) w in
      if w_stop_event w0 then (Returned, w0)
      else
        match body env w0 with
        | (Ret _, w') => run rest w'
        | (Raise e, w') => (Died e, w')
        end
  end.

(** The messages spoken so far, oldest first. *)
Definition spoken (tr : list tts_event) : list string :=
  flat_map (fun ev => match ev with TtsSay m => [m] | TtsPrint _ => [] end) tr.

End TTSWorker.

(** ** Level meter *)

Module VUMeter.

Record t : Type := {
  width : Z;
  height : Z;
  current_db : R;
  threshold_db : R;
  peak_db : R;
  peak_hold_time : R;
  bar_width : Z;
  bar_spacing : Z;
  num_bars : Z;
  db_min : R;
  db_max : R
}.

(** [VUMeter(parent, width, height)] *)
Definition init (width height : Z) : t :=
  {| width := width;
     height := height;
     current_db := -100;
     threshold_db := -30;
     peak_db := -100;
     peak_hold_time := 0;
     bar_width := 6;
     bar_spacing := 1;
     num_bars := ((width - 40) / (6 + 1))%Z;
     db_min := -60;
     db_max := 0 |}.

(** [db_to_x(db)] *)
Definition db_to_x (self : t) (db : R) : R :=
  if Rle_dec db (db_min self) then 20
  else if Rge_dec db (db_max self) then
    IZR (20 + (num_bars self - 1) * (bar_width self + bar_spacing self))
  else
    let ratio := (db - db_min self) / (db_max self - db_min self) in
    20 + ratio * IZR (num_bars self - 1) * IZR (bar_width self + bar_spacing self).

(** [get_bar_color(db)]: [SUCCESS], [WARNING] or [ERROR] of [AppColors]. *)
Definition get_bar_color (db : R) : string :=
  if Rlt_dec db (-20) then "#4CAF50"
  else if Rlt_dec db (-10) then "#FF9800"
  else "#f44336".

(** [update_level(db, threshold_db)] up to [redraw]; [now] is what
    [time.time()] returns in the branch that calls it. *)
Definition update_level (now : R) (db threshold : R) (self : t) : t :=
  let peak :=
    if Rlt_dec (peak_db self) db then (db, now)
    else if Rlt_dec 1 (now - peak_hold_time self) then
      (Py.max (peak_db self - 0.5) db, peak_hold_time self)
    else (peak_db self, peak_hold_time self) in
  {| width := width self;
     height := height self;
     current_db := db;
     threshold_db := threshold;
     peak_db := fst peak;
     peak_hold_time := snd peak;
     bar_width := bar_width self;
     bar_spacing := bar_spacing self;
     num_bars := num_bars self;
     db_min := db_min self;
     db_max := db_max self |}.

End VUMeter.

(** ** Audio devices *)

(** What PortAudio reports about one device and one host API. *)
Record DeviceInfo : Type := {
  dev_name : string;
  maxInputChannels : Z;
  maxOutputChannels : Z;
  hostApi : Z
}.

(** A [pyaudio.PyAudio()] object: each query returns or raises. *)
Record PyAudio : Type := {
  get_device_count : outcome Z;
  get_device_info_by_index : Z -> outcome DeviceInfo;
  get_host_api_info_by_index : Z -> outcome string   (* the API's name *)
}.

Module Devices.

(** [f"{device_info['name']} ({host_api_info['name']})"] *)
Definition device_name (info : DeviceInfo) (api_name : string) : string :=
  String.append (dev_name info)
    (String.append " (" (String.append api_name ")")).

(** The body of the [for] loop of [list_audio_devices], with its
    [except Exception: continue]: the entry device [i] adds, if any. *)
Definition entry (pa : PyAudio) (kind : string) (i : Z) : list (Z * string) :=
  match
    try_except
      (device_info <- get_device_info_by_index pa i ;;
       if String.eqb kind "input" && (0 <? maxInputChannels device_info)%Z then
         api <- get_host_api_info_by_index pa (hostApi device_info) ;;
         Ret [(i, device_name device_info api)]
       else if String.eqb kind "output" && (0 <? maxOutputChannels device_info)%Z then
         api <- get_host_api_info_by_index pa (hostApi device_info) ;;
         Ret [(i, device_name device_info api)]
       else Ret [])
      (fun _ => Ret [])
  with
  | Ret l => l
  | Raise _ => []
  end.

(** [list_audio_devices(kind)] on an opened [PyAudio]; a failure of
    [get_device_count] is not caught. *)
Definition list_audio_devices (pa : PyAudio) (kind : string)
  : outcome (list (Z * string)) :=
  device_count <- get_device_count pa ;;
  Ret (flat_map (entry pa kind) (range device_count)).

(** [list_input_devices()] and [list_output_devices()] *)
Definition list_input_devices (pa : PyAudio) : outcome (list (Z * string)) :=
  list_audio_devices pa "input".

Definition list_output_devices (pa : PyAudio) : outcome (list (Z * string)) :=
  list_audio_devices pa "output".

(** A dictionary with string keys, in insertion order; [d[k] = v] keeps the
    place of a key that is already there. *)
Fixpoint dict_set {V : Type} (d : list (string * V)) (k : string) (v : V)
  : list (string * V) :=
  match d with
  | [] => [(k, v)]
  | (k', v') :: rest =>
      if String.eqb k' k then (k', v) :: rest else (k', v') :: dict_set rest k v
  end.

(** [d.get(k)] *)
Fixpoint dict_get {V : Type} (d : list (string * V)) (k : string) : option V :=
  match d with
  | [] => None
  | (k', v') :: rest => if String.eqb k' k then Some v' else dict_get rest k
  end.

(** [{name: idx for idx, name in dev_list}] *)
Definition map_name_to_idx (dev_list : list (Z * string)) : list (string * Z) :=
  fold_left (fun d entry => dict_set d (snd entry) (fst entry)) dev_list [].

(** [list(d.keys())] *)
Definition keys {V : Type} (d : list (string * V)) : list string := map fst d.

(** The input device [push_settings] chooses: the selected name's index,
    else the first listed device's, else [-1]. *)
Definition push_settings_device (name_to_idx : list (string * Z))
  (selected_name : string) : Z :=
  let device_idx :=
    match dict_get name_to_idx selected_name with
    | Some i => i
    | None => (-1)%Z
    end in
  match keys name_to_idx with
  | first :: _ =>
      if (device_idx =? -1)%Z then
        match dict_get name_to_idx first with
        | Some i => i
        | None => (-1)%Z
        end
      else device_idx
  | [] => device_idx
  end.

End Devices.

(** ** Shapes by name *)

(** The shape [gen_wave] synthesizes for a shape name: every name other
    than "Sine" and "Square" gives the ramp. *)
Definition shape_of (name : string) : Shape :=
  if String.eqb name "Sine" then Sine
  else if String.eqb name "Square" then Square
  else Sawtooth.

(** ** Sequences of web requests *)

Inductive web_request : Type := ReqStart | ReqStop.

Module Serve.

(** The handlers of [/start_monitoring] and [/stop_monitoring], one request
    after the other. *)
Definition control (reqs : list web_request) (s : SharedState) : SharedState :=
  fold_left
    (fun s' r =>
       match r with
       | ReqStart => snd (Web.start_monitoring_web s')
       | ReqStop => snd (Web.stop_monitoring_web s')
       end)
    reqs s.

(** The handler of [/send_message], one request body after the other. *)
Definition messages (bodies : list (outcome json)) (s : SharedState) : SharedState :=
  fold_left (fun s' body => snd (Web.send_message body s')) bodies s.

(** A message as the endpoint lets it through: trimmed, not empty, at most
    500 characters. *)
Definition accepted (m : string) : Prop :=
  strip m = m /\ m <> "" /\ (len m <= 500)%Z.

End Serve.

(** ** A sound card used in the statements *)

(** Three devices: a microphone, a device whose query fails, and speakers. *)
Definition sample_card : PyAudio :=
  {| get_device_count := Ret 3%Z;
     get_device_info_by_index := fun i =>
       if (i =? 0)%Z then
         Ret {| dev_name := "Mic"; maxInputChannels := 2;
                maxOutputChannels := 0; hostApi := 0 |}
       else if (i =? 2)%Z then
         Ret {| dev_name := "Speakers"; maxInputChannels := 0;
                maxOutputChannels := 2; hostApi := 0 |}
       else Raise (Exn "OSError" "Invalid device");
     get_host_api_info_by_index := fun _ => Ret "ALSA" |}.

(** A cycle that records silence above the threshold while the output
    device works. *)
Definition alert_cycle : cycle_env :=
  {| stop_pressed := false; pushed := [settings_at (-300)];
     capture := Ret [0; 0; 0]; playback := Ret tt |}.

(** Settings whose alert cannot be synthesized: a square wave at volume 200. *)
Definition loud_square_settings : Settings :=
  {| thresh := -300; shape := "Square"; freq := 1; dur := 1000; vol := 200;
     fs := 44100; chunk := 1 / 10; delay := 2 / 100; device := 0;
     output_device := None; web_enabled := false; web_port := 8080 |}.

(** A cycle that records silence above the threshold and whose tone cannot
    be synthesized, while the output device works. *)
Definition synthesis_fails : cycle_env :=
  {| stop_pressed := false; pushed := [loud_square_settings];
     capture := Ret [0; 0; 0]; playback := Ret tt |}.

(** * Properties *)

(** Unfolds the combinators of the state and exception monad. *)
Ltac st_unfold :=
  unfold St.try_except, St.bind, St.lift, St.ret, St.modify, St.get, St.raise.

(** ** Strings: [strip] *)

Section Dropwhile.

Context {A : Type} (p : A -> bool).

Lemma dropwhile_clean (l : list A) : starts_clean p (dropwhile p l).
Proof.
  induction l as [|x l IH]; simpl; [exact I|].
  destruct (p x) eqn:E; [exact IH | exact E].
Qed.

Lemma dropwhile_of_clean (l : list A) : starts_clean p l -> dropwhile p l = l.
Proof.
  destruct l as [|x l]; simpl; [reflexivity|].
  intros ->. reflexivity.
Qed.

Lemma dropwhile_idem (l : list A) : dropwhile p (dropwhile p l) = dropwhile p l.
Proof. apply dropwhile_of_clean, dropwhile_clean. Qed.

Lemma dropwhile_snoc (l : list A) (x : A) :
  p x = false -> dropwhile p (l ++ [x]) = dropwhile p l ++ [x].
Proof.
  intros Hx. induction l as [|y l IH]; simpl.
  - now rewrite Hx.
  - destruct (p y); [exact IH | reflexivity].
Qed.

End Dropwhile.

Lemma rstrip_chars_clean (l : list ascii) :
  starts_clean isspace l -> starts_clean isspace (rstrip_chars l).
Proof.
  destruct l as [|c t]; simpl; [intros _; exact I|].
  intros Hc. unfold rstrip_chars. simpl.
  rewrite (dropwhile_snoc isspace _ _ Hc), rev_app_distr. exact Hc.
Qed.

Lemma rstrip_chars_idem (l : list ascii) :
  rstrip_chars (rstrip_chars l) = rstrip_chars l.
Proof.
  unfold rstrip_chars. now rewrite rev_involutive, dropwhile_idem.
Qed.

Lemma strip_idem (s : string) : strip (strip s) = strip s.
Proof.
  unfold strip. rewrite list_ascii_of_string_of_list_ascii.
  unfold lstrip_chars at 1.
  rewrite dropwhile_of_clean.
  - now rewrite rstrip_chars_idem.
  - apply rstrip_chars_clean, dropwhile_clean.
Qed.

Lemma truthy_false_iff (s : string) : truthy s = false <-> s = "".
Proof. destruct s; simpl; split; congruence. Qed.

Lemma truthy_true_iff (s : string) : truthy s = true <-> s <> "".
Proof. destruct s; simpl; split; congruence. Qed.

(** ** Shared state and web endpoints *)

(** A stripped, non-empty message passes the test of [add_tts_message]. *)
Lemma add_tts_message_stripped (m : string) (s : SharedState) :
  strip m <> "" ->
  add_tts_message (strip m) s =
  match tts_engine s with
  | Some _ => set_tts_queue (tts_queue s ++ [strip m]) s
  | None => s
  end.
Proof.
  intros Hne. unfold add_tts_message.
  destruct (tts_engine s); [|reflexivity].
  rewrite strip_idem.
  apply truthy_true_iff in Hne. now rewrite Hne.
Qed.

(** What [send_message] does on a body whose message is the string [m]. *)
Lemma send_message_on_string (s : SharedState) (data : json) (m : string) :
  Web.get data "message" (JStr "") = Ret (JStr m) ->
  Web.send_message (Ret data) s =
  if negb (truthy (strip m)) then (Ret resp_empty, s)
  else if (500 <? len (strip m))%Z then (Ret resp_too_long, s)
  else (Ret resp_queued, add_tts_message (strip m) s).
Proof.
  intros Hget.
  unfold Web.send_message, Web.send_message_body. st_unfold.
  rewrite Hget. simpl.
  destruct (truthy (strip m)); simpl; [|reflexivity].
  destruct (500 <? len (strip m))%Z; reflexivity.
Qed.

(** [send_message] answers every request: nothing escapes its [try]. *)
Lemma send_message_returns (get_json : outcome json) (s : SharedState) :
  exists r, fst (Web.send_message get_json s) = Ret r.
Proof.
  unfold Web.send_message, St.try_except.
  destruct (Web.send_message_body get_json s) as [[r|e] s']; simpl; eauto.
Qed.



(** C3, as the code has it. For a request whose message is a string: empty
    after trimming, it is refused with "No message provided"; longer than
    500 characters after trimming, it is refused with the length error; in
    both cases the state is unchanged. Otherwise the answer is success, and
    the trimmed message is put at the end of the speech queue when the
    speech engine is available, while the state is unchanged when it is not. *)
Theorem send_message_validation (s : SharedState) (data : json) (m : string) :
  Web.get data "message" (JStr "") = Ret (JStr m) ->
  let r := Web.send_message (Ret data) s in
  (strip m = "" -> r = (Ret resp_empty, s))
  /\ ((500 < len (strip m))%Z -> r = (Ret resp_too_long, s))
  /\ (strip m <> "" -> (len (strip m) <= 500)%Z ->
      r = (Ret resp_queued,
           match tts_engine s with
           | Some _ => set_tts_queue (tts_queue s ++ [strip m]) s
           | None => s
           end)).
Proof.
  intros Hget r. subst r. rewrite (send_message_on_string s data m Hget).
  repeat split.
  - intros He. apply truthy_false_iff in He. now rewrite He.
  - intros Hlong.
    destruct (truthy (strip m)) eqn:Ht; simpl.
    + apply Z.ltb_lt in Hlong. now rewrite Hlong.
    + apply truthy_false_iff in Ht. rewrite Ht in Hlong. discriminate Hlong.
  - intros Hne Hlen. rewrite <- (add_tts_message_stripped m s Hne).
    apply truthy_true_iff in Hne. rewrite Hne. simpl.
    apply Z.ltb_ge in Hlen. now rewrite Hlen.
Qed.

Lemma send_message_validation_witness :
  Web.send_message (Ret hi_request) state_with_engine
  = (Ret resp_queued, set_tts_queue ["hi"] state_with_engine).
Proof.
  refine (proj2 (proj2 (send_message_validation state_with_engine hi_request
                          " hi " eq_refl)) _ _).
  - discriminate.
  - vm_compute. discriminate.
Defined.

(** The boundary: 500 characters are accepted, 501 are refused. *)
Lemma send_message_500_characters (s : SharedState) :
  Web.send_message (Ret (letters_request 500)) s =
  (Ret resp_queued, add_tts_message (letters 500) s).
Proof.
  rewrite (send_message_on_string s (letters_request 500) (letters 500) eq_refl).
  replace (strip (letters 500)) with (letters 500) by (vm_compute; reflexivity).
  replace (truthy (letters 500)) with true by (vm_compute; reflexivity).
  replace (500 <? len (letters 500))%Z with false by (vm_compute; reflexivity).
  reflexivity.
Qed.

Lemma send_message_501_characters (s : SharedState) :
  Web.send_message (Ret (letters_request 501)) s = (Ret resp_too_long, s).
Proof.
  rewrite (send_message_on_string s (letters_request 501) (letters 501) eq_refl).
  replace (strip (letters 501)) with (letters 501) by (vm_compute; reflexivity).
  replace (truthy (letters 501)) with true by (vm_compute; reflexivity).
  replace (500 <? len (letters 501))%Z with true by (vm_compute; reflexivity).
  reflexivity.
Qed.

(** C3, counterexample. With no speech engine, a valid message is answered
    with success and the speech queue stays empty. *)
Lemma send_message_success_without_enqueue :
  let r := Web.send_message (Ret hi_request) state_without_engine in
  fst r = Ret resp_queued /\ tts_queue (snd r) = [].
Proof. split; reflexivity. Qed.

(** C10. When the speech engine is missing, [add_tts_message] leaves the
    state (and so the speech queue) as it is for every message, and
    [send_message] still answers success for every message that is not
    empty after trimming and has at most 500 characters. *)
Theorem no_engine_drops_silently (s : SharedState) :
  tts_engine s = None ->
  (forall m, add_tts_message m s = s)
  /\ (forall data m,
        Web.get data "message" (JStr "") = Ret (JStr m) ->
        strip m <> "" -> (len (strip m) <= 500)%Z ->
        Web.send_message (Ret data) s = (Ret resp_queued, s)).
Proof.
  intros Hnone. split.
  - intros m. unfold add_tts_message. now rewrite Hnone.
  - intros data m Hget Hne Hlen.
    rewrite (send_message_on_string s data m Hget).
    apply truthy_true_iff in Hne. rewrite Hne. simpl.
    apply Z.ltb_ge in Hlen. rewrite Hlen.
    unfold add_tts_message. now rewrite Hnone.
Qed.

Lemma no_engine_drops_silently_witness :
  add_tts_message "hello" state_without_engine = state_without_engine.
Proof.
  exact (proj1 (no_engine_drops_silently state_without_engine eq_refl) "hello").
Defined.

(** ** Level estimator *)

Lemma sum_zeros_from (l : list R) (acc : R) :
  Forall (fun r => r = 0) l -> fold_left Rplus l acc = acc.
Proof.
  intros H. revert acc.
  induction H as [|x l Hx _ IH]; intros acc; simpl; [reflexivity|].
  rewrite IH, Hx. lra.
Qed.

Lemma sum_zeros (l : list R) : Forall (fun r => r = 0) l -> Py.sum l = 0.
Proof. apply sum_zeros_from. Qed.

Lemma clip_unit_zero : Py.max (-1) (Py.min 1 0) = 0.
Proof.
  unfold Py.max, Py.min.
  destruct (Rlt_dec 0 1); [|lra].
  destruct (Rlt_dec (-1) 0); lra.
Qed.

Lemma squares_of_clipped_zeros (l : list R) :
  Forall (fun r => r = 0) l ->
  Forall (fun r => r = 0) (map (fun r => r * r) (clip l (-1) 1)).
Proof.
  intros H. unfold clip. rewrite map_map.
  induction H as [|x l Hx _ IH]; simpl; constructor; [|exact IH].
  rewrite Hx, clip_unit_zero. lra.
Qed.

Lemma mean_zeros (l : list R) :
  l <> [] -> Forall (fun r => r = 0) l -> mean l = Ret 0.
Proof.
  intros Hne H. destruct l as [|x l]; [congruence|].
  unfold mean. rewrite (sum_zeros _ H). f_equal.
  unfold Rdiv. apply Rmult_0_l.
Qed.

Lemma sqrt_zero : Py.sqrt 0 = Ret 0.
Proof.
  unfold Py.sqrt. destruct (Rlt_dec 0 0); [lra|]. now rewrite sqrt_0.
Qed.

Lemma epsilon_value : 1e-10 = / 10 ^ 10.
Proof. simpl. lra. Qed.

Lemma epsilon_pos : 0 < 1e-10.
Proof. lra. Qed.

Lemma ln_10_pos : 0 < ln 10.
Proof. rewrite <- ln_1. apply ln_increasing; lra. Qed.

Lemma ln_epsilon : ln 1e-10 = -10 * ln 10.
Proof.
  rewrite epsilon_value, ln_Rinv by (apply pow_lt; lra).
  rewrite ln_pow by lra. simpl INR. lra.
Qed.

Lemma rms_to_db_zero : Monitor.rms_to_db 0 = Ret (-200).
Proof.
  unfold Monitor.rms_to_db, log10. rewrite Rplus_0_l.
  destruct (Rlt_dec 0 1e-10) as [_|H]; [|destruct (H epsilon_pos)].
  simpl. f_equal. rewrite ln_epsilon.
  pose proof ln_10_pos. field. lra.
Qed.

(** The loudness of a non-empty buffer of zeros. *)
Lemma loudness_zeros (rec_flat : list R) :
  rec_flat <> [] -> Forall (fun r => r = 0) rec_flat ->
  Monitor.loudness rec_flat = Ret (-200).
Proof.
  intros Hne Hz. unfold Monitor.loudness.
  rewrite mean_zeros.
  - simpl. rewrite sqrt_zero. simpl. apply rms_to_db_zero.
  - destruct rec_flat; [congruence | discriminate].
  - now apply squares_of_clipped_zeros.
Qed.

(** C1. On a non-empty buffer of zeros the loudness computation of
    [Monitor.run] raises nothing (no division by zero, no domain error of
    [math.sqrt] or [math.log10]) and returns a real number, which is -200 and
    so at most -180. *)
Theorem loudness_of_silence (rec_flat : list R) :
  rec_flat <> [] ->
  Forall (fun r => r = 0) rec_flat ->
  exists db, Monitor.loudness rec_flat = Ret db /\ db = -200 /\ db <= -180.
Proof.
  intros Hne Hz. exists (-200). split; [|split; lra].
  now apply loudness_zeros.
Qed.

Lemma loudness_of_silence_witness :
  exists db, Monitor.loudness [0; 0; 0] = Ret db /\ db = -200 /\ db <= -180.
Proof.
  apply (loudness_of_silence [0; 0; 0]).
  - discriminate.
  - repeat constructor.
Defined.

(** ** Calibration *)

Lemma is_zero_true_iff (r : R) : Calibration.is_zero r = true <-> r = 0.
Proof.
  unfold Calibration.is_zero. destruct (Req_dec_T r 0); split; congruence.
Qed.

Lemma forallb_is_zero_iff (l : list R) :
  forallb Calibration.is_zero l = true <-> Forall (fun r => r = 0) l.
Proof.
  rewrite forallb_forall, Forall_forall.
  split; intros H x Hx; apply is_zero_true_iff, H, Hx.
Qed.

Lemma no_signal_true_iff (l : list R) :
  Calibration.no_signal l = true <-> l = [] \/ Forall (fun r => r = 0) l.
Proof.
  unfold Calibration.no_signal. rewrite orb_true_iff, forallb_is_zero_iff.
  split; (intros [H|H]; [left|right; exact H]).
  - destruct l; [reflexivity | discriminate H].
  - now rewrite H.
Qed.

Lemma sum_nonneg_from (l : list R) (acc : R) :
  Forall (fun r => 0 <= r) l -> 0 <= acc -> 0 <= fold_left Rplus l acc.
Proof.
  intros H. revert acc.
  induction H as [|x l Hx _ IH]; intros acc Hacc; simpl; [exact Hacc|].
  apply IH. lra.
Qed.

Lemma squares_nonneg (l : list R) : Forall (fun r => 0 <= r) (map (fun r => r * r) l).
Proof.
  induction l as [|x l IH]; simpl; constructor; [nra | exact IH].
Qed.

(** The mean of the squares of a non-empty buffer exists and is not negative. *)
Lemma mean_squares (l : list R) :
  l <> [] -> exists m, mean (map (fun r => r * r) l) = Ret m /\ 0 <= m.
Proof.
  intros Hne. destruct l as [|x l]; [congruence|].
  eexists. split; [reflexivity|].
  apply Rmult_le_pos.
  - apply sum_nonneg_from; [apply (squares_nonneg (x :: l)) | lra].
  - left. apply Rinv_0_lt_compat. apply lt_0_INR. simpl. lia.
Qed.

Lemma sqrt_of_nonneg (x : R) : 0 <= x -> Py.sqrt x = Ret (R_sqrt.sqrt x).
Proof.
  intros Hx. unfold Py.sqrt. destruct (Rlt_dec x 0); [lra | reflexivity].
Qed.

Lemma clip_nonempty (l : list R) (lo hi : R) : l <> [] -> clip l lo hi <> [].
Proof. destruct l; [congruence | discriminate]. Qed.

(** On a non-empty buffer the ambient level is computed without an exception. *)
Lemma ambient_level_returns (rec_flat : list R) :
  rec_flat <> [] -> exists ambient, Calibration.ambient_level rec_flat = Ret ambient.
Proof.
  intros Hne. unfold Calibration.ambient_level.
  destruct (mean_squares (clip rec_flat (-1) 1)) as (m & -> & Hm);
    [now apply clip_nonempty|].
  simpl. rewrite (sqrt_of_nonneg m Hm). simpl.
  destruct (Rlt_dec (R_sqrt.sqrt m) 1e-10) as [Hlow|Hhigh]; simpl; [eauto|].
  unfold log10.
  destruct (Rlt_dec 0 (R_sqrt.sqrt m)) as [_|Hbad]; simpl; [eauto|].
  exfalso. pose proof epsilon_pos. lra.
Qed.

Lemma py_max_Rmax (a b : R) : Py.max a b = Rmax a b.
Proof.
  unfold Py.max, Rmax.
  destruct (Rlt_dec a b), (Rle_dec a b); lra.
Qed.

Lemma suggested_value (ambient : R) :
  Calibration.suggested ambient = Rmax (round1 (ambient + 10)) (-50).
Proof. unfold Calibration.suggested. simpl. apply py_max_Rmax. Qed.

(** C8. When the recording succeeded and the buffer is empty or holds only
    zeros, [calibrate] returns normally after showing the error dialog "No
    audio data received. Please check your microphone."; the shared state
    and the threshold slider are as before. *)
Theorem calibrate_without_signal (a : App) (device_idx : Z) (rec_flat : list R) :
  device_idx <> (-1)%Z ->
  rec_flat = [] \/ Forall (fun r => r = 0) rec_flat ->
  Calibration.calibrate device_idx (Ret rec_flat) a =
  (Ret tt,
   {| shared := shared a;
      th_var := th_var a;
      dialogs := dialogs a ++
        [ShowError "Calibration Error"
           "No audio data received. Please check your microphone."] |}).
Proof.
  intros Hdev Hsilent. unfold Calibration.calibrate.
  apply Z.eqb_neq in Hdev. rewrite Hdev.
  st_unfold. simpl.
  apply no_signal_true_iff in Hsilent. rewrite Hsilent.
  reflexivity.
Qed.

Lemma calibrate_without_signal_witness :
  dialogs (snd (Calibration.calibrate 0 (Ret [0; 0]) idle_app)) =
  [ShowError "Calibration Error"
     "No audio data received. Please check your microphone."].
Proof.
  rewrite (calibrate_without_signal idle_app 0 [0; 0]).
  - reflexivity.
  - discriminate.
  - right. repeat constructor.
Defined.

(** C9. When the recording succeeded and the buffer is not empty and not all
    zeros, the ambient level is computed without an exception; the suggested
    threshold is the larger of [round(ambient + 10, 1)] and -50, so at least
    -50; [calibrate] sets the slider to it (within the slider's range) and
    shows it together with the ambient level. *)
Theorem calibrate_suggests_threshold (a : App) (device_idx : Z) (rec_flat : list R) :
  device_idx <> (-1)%Z ->
  rec_flat <> [] ->
  ~ Forall (fun r => r = 0) rec_flat ->
  exists ambient,
    Calibration.ambient_level rec_flat = Ret ambient
    /\ Calibration.suggested ambient = Rmax (round1 (ambient + 10)) (-50)
    /\ -50 <= Calibration.suggested ambient
    /\ Calibration.calibrate device_idx (Ret rec_flat) a =
       (Ret tt,
        {| shared :=
             update_threshold
               (Calibration.scale_value (Calibration.suggested ambient))
               (shared a);
           th_var := Calibration.scale_value (Calibration.suggested ambient);
           dialogs := dialogs a ++
             [ShowInfo "Calibration Complete" ambient
                (Calibration.suggested ambient)] |}).
Proof.
  intros Hdev Hne Hsound.
  destruct (ambient_level_returns rec_flat Hne) as (ambient & Hamb).
  exists ambient. split; [exact Hamb|]. split; [apply suggested_value|].
  split; [rewrite suggested_value; apply Rmax_r|].
  unfold Calibration.calibrate.
  apply Z.eqb_neq in Hdev. rewrite Hdev.
  st_unfold. simpl.
  destruct (Calibration.no_signal rec_flat) eqn:Hsig.
  - apply no_signal_true_iff in Hsig. tauto.
  - rewrite Hamb. reflexivity.
Qed.

Lemma calibrate_suggests_threshold_witness :
  exists ambient,
    Calibration.ambient_level [1] = Ret ambient
    /\ -50 <= Calibration.suggested ambient.
Proof.
  destruct (calibrate_suggests_threshold idle_app 0 [1]) as (ambient & H1 & _ & H3 & _).
  - discriminate.
  - discriminate.
  - intros H. inversion H; subst. lra.
  - exists ambient. split; assumption.
Defined.

(** ** Tone synthesizer: integers from reals *)

Lemma Int_part_bounds (x : R) : IZR (Int_part x) <= x < IZR (Int_part x) + 1.
Proof. destruct (base_Int_part x). lra. Qed.

Lemma Int_part_nonneg (x : R) : 0 <= x -> (0 <= Int_part x)%Z.
Proof.
  intros Hx. pose proof (Int_part_bounds x) as [_ Hup].
  assert (H : (-1 < Int_part x)%Z) by (apply lt_IZR; lra).
  lia.
Qed.

(** [int] truncates toward zero. *)
Lemma int_truncates (x : R) :
  (0 <= x -> IZR (Py.int x) <= x < IZR (Py.int x) + 1)
  /\ (x <= 0 -> x <= IZR (Py.int x) /\ IZR (Py.int x) - 1 < x).
Proof.
  unfold Py.int. destruct (Rle_dec 0 x) as [Hpos|Hneg]; split; intros H.
  - apply Int_part_bounds.
  - assert (x = 0) by lra. subst x.
    pose proof (Int_part_bounds 0).
    pose proof (IZR_le _ _ (Int_part_nonneg 0 (Rle_refl 0))). lra.
  - lra.
  - rewrite opp_IZR. pose proof (Int_part_bounds (- x)). lra.
Qed.

Lemma int_range (x : R) (n : Z) :
  - IZR n <= x <= IZR n -> (- n <= Py.int x <= n)%Z.
Proof.
  intros [Hlo Hhi].
  assert (Hn : (0 <= n)%Z) by (apply le_IZR; lra).
  unfold Py.int. destruct (Rle_dec 0 x) as [Hpos|Hneg].
  - pose proof (Int_part_nonneg x Hpos).
    pose proof (Int_part_bounds x) as [Hl _].
    assert ((Int_part x <= n)%Z) by (apply le_IZR; lra). lia.
  - assert (Hx : 0 <= - x) by lra.
    pose proof (Int_part_nonneg (- x) Hx).
    pose proof (Int_part_bounds (- x)) as [Hl _].
    assert ((Int_part (- x) <= n)%Z) by (apply le_IZR; lra). lia.
Qed.

Lemma Int_part_IZR_div (a b : Z) :
  (0 < b)%Z -> Int_part (IZR a / IZR b) = (a / b)%Z.
Proof.
  intros Hb. symmetry. apply Int_part_spec.
  assert (HbR : 0 < IZR b) by (apply IZR_lt; lia).
  pose proof (Z.div_mod a b ltac:(lia)) as Hdm.
  pose proof (Z.mod_pos_bound a b Hb) as [Hm0 Hm1].
  assert (Hlo : IZR (b * (a / b)) <= IZR a) by (apply IZR_le; lia).
  assert (Hhi : IZR a < IZR (b * (a / b) + b)) by (apply IZR_lt; lia).
  rewrite plus_IZR in Hhi. rewrite mult_IZR in Hlo, Hhi.
  set (q := IZR (a / b)) in *.
  assert (Heq : IZR a / IZR b - q = (IZR a - IZR b * q) / IZR b)
    by (field; lra).
  split.
  - assert ((IZR a - IZR b * q) / IZR b < 1).
    { apply Rmult_lt_reg_r with (IZR b); [exact HbR|].
      unfold Rdiv. rewrite Rmult_assoc, Rinv_l by lra. lra. }
    lra.
  - assert (0 <= (IZR a - IZR b * q) / IZR b).
    { apply Rmult_le_pos; [lra|]. left. now apply Rinv_0_lt_compat. }
    lra.
Qed.

(** On a quotient of integers [int] is the truncating division. *)
Lemma int_IZR_div (a b : Z) :
  (0 < b)%Z -> Py.int (IZR a / IZR b) = Z.quot a b.
Proof.
  intros Hb.
  assert (HbR : 0 < IZR b) by (apply IZR_lt; lia).
  unfold Py.int. destruct (Rle_dec 0 (IZR a / IZR b)) as [Hpos|Hneg].
  - assert (Ha : (0 <= a)%Z).
    { apply le_IZR.
      replace (IZR a) with (IZR a / IZR b * IZR b) by (field; lra).
      apply Rmult_le_pos; lra. }
    rewrite Int_part_IZR_div by exact Hb.
    now rewrite Z.quot_div_nonneg.
  - assert (Ha : (a < 0)%Z).
    { apply lt_IZR. apply Rnot_le_lt in Hneg.
      replace (IZR a) with (IZR a / IZR b * IZR b) by (field; lra).
      replace 0 with (0 * IZR b) by lra.
      apply Rmult_lt_compat_r; lra. }
    replace (- (IZR a / IZR b)) with (IZR (- a) / IZR b)
      by (rewrite opp_IZR; field; lra).
    rewrite Int_part_IZR_div by exact Hb.
    rewrite <- (Z.quot_div_nonneg (- a) b) by lia.
    rewrite Z.quot_opp_l by lia. lia.
Qed.

(** ** Tone synthesizer: packing *)

Lemma Z_of_byte_of_Z (z : Z) : Z_of_byte (byte_of_Z z) = (z mod 256)%Z.
Proof.
  unfold Z_of_byte, byte_of_Z.
  pose proof (Z.mod_pos_bound z 256 eq_refl) as Hb.
  destruct (Byte.of_N (Z.to_N (z mod 256))) as [b|] eqn:E.
  - apply Byte.to_of_N in E. rewrite E. lia.
  - apply Byte.of_N_None_iff in E. lia.
Qed.

Lemma unpack_pack_h (v : Z) :
  in_int16 v ->
  unpack_h (byte_of_Z (v mod 65536)) (byte_of_Z (v mod 65536 / 256)) = v.
Proof.
  unfold in_int16, unpack_h. intros Hv.
  rewrite !Z_of_byte_of_Z.
  assert (Hu : (v mod 65536 = if v <? 0 then v + 65536 else v)%Z).
  { destruct (v <? 0)%Z eqn:E; [apply Z.ltb_lt in E | apply Z.ltb_ge in E].
    - symmetry. apply (Z.mod_unique v 65536 (-1)); lia.
    - apply Z.mod_small; lia. }
  set (u := (v mod 65536)%Z) in *.
  pose proof (Z.mod_pos_bound v 65536 eq_refl) as Hb. fold u in Hb.
  assert (Hhi : (u / 256 mod 256 = u / 256)%Z).
  { apply Z.mod_small. split.
    - apply Z.div_pos; lia.
    - apply Z.div_lt_upper_bound; lia. }
  rewrite Hhi.
  replace (u mod 256 + 256 * (u / 256))%Z with u
    by (rewrite (Z.div_mod u 256) at 1 by lia; lia).
  destruct (v <? 0)%Z eqn:E; [apply Z.ltb_lt in E | apply Z.ltb_ge in E];
    destruct (u <? 32768)%Z eqn:E'; [apply Z.ltb_lt in E' | apply Z.ltb_ge in E'
                                    |apply Z.ltb_lt in E' | apply Z.ltb_ge in E'];
    lia.
Qed.

Lemma pack_h_in_range (v : Z) :
  in_int16 v ->
  pack_h v = Ret [byte_of_Z (v mod 65536); byte_of_Z (v mod 65536 / 256)].
Proof.
  unfold in_int16, pack_h. intros Hv.
  replace ((-32768 <=? v)%Z && (v <=? 32767)%Z) with true; [reflexivity|].
  symmetry. apply andb_true_iff. split; apply Z.leb_le; lia.
Qed.

Lemma pack_h_returns (v : Z) (b : list byte) :
  pack_h v = Ret b ->
  in_int16 v /\ b = [byte_of_Z (v mod 65536); byte_of_Z (v mod 65536 / 256)].
Proof.
  unfold pack_h, in_int16.
  destruct ((-32768 <=? v)%Z && (v <=? 32767)%Z) eqn:E; [|discriminate].
  apply andb_true_iff in E. destruct E as [E1%Z.leb_le E2%Z.leb_le].
  intros [= <-]. split; [lia | reflexivity].
Qed.

(** Packing succeeds on samples in range. *)
Lemma struct_pack_h_in_range (audio : list Z) :
  Forall in_int16 audio -> exists bs, struct_pack_h audio = Ret bs.
Proof.
  induction 1 as [|v l Hv _ [bs IH]]; simpl; [eauto|].
  rewrite (pack_h_in_range v Hv), IH. simpl. eauto.
Qed.

(** Whatever packing returns holds exactly the samples, all in range. *)
Lemma struct_pack_h_returns (audio : list Z) (bs : list byte) :
  struct_pack_h audio = Ret bs -> samples bs = audio /\ Forall in_int16 audio.
Proof.
  revert bs. induction audio as [|v l IH]; simpl; intros bs H.
  - injection H as <-. split; [reflexivity | constructor].
  - destruct (pack_h v) as [b|e] eqn:Ev; [|discriminate].
    destruct (struct_pack_h l) as [bs'|e] eqn:El; [|discriminate].
    simpl in H. injection H as <-.
    destruct (pack_h_returns v b Ev) as [Hv ->].
    destruct (IH bs' eq_refl) as [Hs Hall].
    split; [|now constructor].
    simpl. now rewrite unpack_pack_h, Hs.
Qed.

(** ** Tone synthesizer: the waveform *)

Lemma length_range (n : Z) : List.length (range n) = Z.to_nat n.
Proof. unfold range. now rewrite length_map, length_seq. Qed.

Lemma linspace_length (start stop : R) (num : Z) :
  List.length (linspace start stop num) =
  if (num <=? 1)%Z then 1%nat else Z.to_nat num.
Proof.
  unfold linspace. destruct (num <=? 1)%Z; [reflexivity|].
  now rewrite length_map, length_range.
Qed.

(** The time points: [i * step] for [0 <= i < num] when [num >= 2]. *)
Lemma linspace_nth (stop : R) (num : Z) (i : nat) :
  (2 <= num)%Z -> (i < Z.to_nat num)%nat ->
  nth i (linspace 0 stop num) 0 = stop / IZR (num - 1) * INR i.
Proof.
  intros Hnum Hi. unfold linspace.
  destruct (num <=? 1)%Z eqn:E; [apply Z.leb_le in E; lia|].
  unfold range. rewrite map_map.
  rewrite (nth_indep _ 0 ((fun x => 0 + (stop - 0) / IZR (num - 1) * IZR (Z.of_nat x)) 0%nat))
    by now rewrite length_map, length_seq.
  rewrite (map_nth (fun x => 0 + (stop - 0) / IZR (num - 1) * IZR (Z.of_nat x))).
  rewrite seq_nth by exact Hi. simpl Nat.add.
  rewrite <- INR_IZR_INZ. unfold Rminus. rewrite Ropp_0, Rplus_0_r, Rplus_0_l.
  reflexivity.
Qed.

Lemma half_literal : 0.5 = 1 / 2.
Proof. unfold Q2R. simpl. lra. Qed.

(** The program's waveform is the specification's, sample by sample. *)
Lemma gen_wave_unfold (sh : Shape) (freq ms volume : Z) :
  gen_wave (shape_name sh) freq ms volume =
  (audio_bytes <-
     struct_pack_h
       (map (spec_sample sh (IZR freq) (IZR volume))
          (linspace 0 (IZR ms / 1000) (Z.quot (44100 * ms) 1000))) ;;
   Ret (audio_bytes, 44100%Z)).
Proof.
  unfold gen_wave. rewrite int_IZR_div by lia.
  set (t := linspace 0 (IZR ms / 1000) (Z.quot (44100 * ms) 1000)).
  destruct sh; simpl String.eqb; cbv iota; unfold sign; rewrite !map_map;
    match goal with
    | |- Py.bind (struct_pack_h ?a) _ = Py.bind (struct_pack_h ?b) _ =>
        replace a with b; [reflexivity|]
    end;
    apply map_ext; intros ti; unfold spec_sample, spec_wave.
  - reflexivity.
  - reflexivity.
  - unfold Py.floor. rewrite half_literal, (Rmult_comm ti (IZR freq)).
    reflexivity.
Qed.

Lemma spec_wave_bound (sh : Shape) (f t : R) : -1 <= spec_wave sh f t <= 1.
Proof.
  destruct sh; simpl.
  - apply SIN_bound.
  - destruct (Rlt_dec 0 _); [lra|]. destruct (Rlt_dec _ 0); lra.
  - pose proof (Int_part_bounds (1 / 2 + f * t)). lra.
Qed.

Lemma spec_sample_in_int16 (sh : Shape) (f t : R) (volume : Z) :
  (0 <= volume <= 100)%Z -> in_int16 (spec_sample sh f (IZR volume) t).
Proof.
  intros [Hlo Hhi]. unfold spec_sample, in_int16.
  pose proof (spec_wave_bound sh f t) as Hw.
  apply IZR_le in Hlo, Hhi.
  set (w := spec_wave sh f t) in *. set (v := IZR volume) in *.
  assert (Hk : 0 <= v / 100 <= 1) by lra.
  set (k := v / 100) in *.
  assert (Hr : - IZR 32767 <= w * k * 32767 <= IZR 32767) by nra.
  apply int_range in Hr. lia.
Qed.

(** With a volume from 0 to 100 [gen_wave] returns. *)
Lemma gen_wave_returns (sh : Shape) (freq ms volume : Z) :
  (0 <= volume <= 100)%Z ->
  exists audio_bytes,
    gen_wave (shape_name sh) freq ms volume = Ret (audio_bytes, 44100%Z).
Proof.
  intros Hv. rewrite gen_wave_unfold.
  destruct (struct_pack_h_in_range
              (map (spec_sample sh (IZR freq) (IZR volume))
                 (linspace 0 (IZR ms / 1000) (Z.quot (44100 * ms) 1000))))
    as [bs Hbs].
  - apply Forall_forall. intros v Hin. apply in_map_iff in Hin.
    destruct Hin as (t & <- & _). now apply spec_sample_in_int16.
  - exists bs. now rewrite Hbs.
Qed.

(** Whatever [gen_wave] returns holds the specification's samples. *)
Lemma gen_wave_result (sh : Shape) (freq ms volume : Z)
  (audio_bytes : list byte) (rate : Z) :
  gen_wave (shape_name sh) freq ms volume = Ret (audio_bytes, rate) ->
  rate = 44100%Z
  /\ samples audio_bytes =
     map (spec_sample sh (IZR freq) (IZR volume))
       (linspace 0 (IZR ms / 1000) (Z.quot (44100 * ms) 1000))
  /\ Forall in_int16 (samples audio_bytes).
Proof.
  rewrite gen_wave_unfold.
  destruct (struct_pack_h _) as [bs|e] eqn:E; [|discriminate].
  simpl. intros [= <- <-].
  destruct (struct_pack_h_returns _ _ E) as [Hs Hall].
  rewrite Hs. auto.
Qed.

Lemma gen_wave_sample_count (sh : Shape) (freq ms volume : Z)
  (audio_bytes : list byte) (rate : Z) :
  gen_wave (shape_name sh) freq ms volume = Ret (audio_bytes, rate) ->
  List.length (samples audio_bytes) =
  if (Z.quot (44100 * ms) 1000 <=? 1)%Z then 1%nat
  else Z.to_nat (Z.quot (44100 * ms) 1000).
Proof.
  intros H. destruct (gen_wave_result _ _ _ _ _ _ H) as (_ & -> & _).
  now rewrite length_map, linspace_length.
Qed.

(** Every shape name other than "Sine" and "Square" selects the ramp. *)
Lemma gen_wave_other_shape (name : string) (freq ms volume : Z) :
  name <> "Sine" -> name <> "Square" ->
  gen_wave name freq ms volume = gen_wave "Saw" freq ms volume.
Proof.
  intros H1 H2. unfold gen_wave.
  apply String.eqb_neq in H1, H2. rewrite H1, H2. reflexivity.
Qed.

(** C6. For a volume from 0 to 100 [gen_wave] returns a byte string at
    44100 Hz; and whatever it returns, for any volume, holds 16-bit signed
    samples, one per time point of [linspace], each the specification's
    formula for the shape at that time, scaled by [volume / 100], multiplied
    by 32767 and truncated toward zero. *)
Theorem gen_wave_samples (sh : Shape) (freq ms volume : Z) :
  ((0 <= volume <= 100)%Z ->
   exists audio_bytes,
     gen_wave (shape_name sh) freq ms volume = Ret (audio_bytes, 44100%Z))
  /\ (forall audio_bytes rate,
        gen_wave (shape_name sh) freq ms volume = Ret (audio_bytes, rate) ->
        rate = 44100%Z
        /\ samples audio_bytes =
           map (spec_sample sh (IZR freq) (IZR volume))
             (linspace 0 (IZR ms / 1000) (Z.quot (44100 * ms) 1000))
        /\ Forall in_int16 (samples audio_bytes)).
Proof.
  split.
  - apply gen_wave_returns.
  - apply gen_wave_result.
Qed.

Lemma gen_wave_samples_witness :
  exists audio_bytes,
    gen_wave "Square" 1000 200 50 = Ret (audio_bytes, 44100%Z).
Proof.
  apply (proj1 (gen_wave_samples Square 1000 200 50)). lia.
Defined.

(** C5, as the code has it. For a duration of at least 1 ms, the number of
    samples [gen_wave] returns is [44100 * ms / 1000] rounded down, for every
    shape, frequency and volume; and it does return for a volume from 0 to
    100. *)
Theorem gen_wave_length (sh : Shape) (freq ms volume : Z) :
  (1 <= ms)%Z ->
  ((0 <= volume <= 100)%Z ->
   exists audio_bytes,
     gen_wave (shape_name sh) freq ms volume = Ret (audio_bytes, 44100%Z))
  /\ (forall audio_bytes rate,
        gen_wave (shape_name sh) freq ms volume = Ret (audio_bytes, rate) ->
        Z.of_nat (List.length (samples audio_bytes)) = (44100 * ms / 1000)%Z).
Proof.
  intros Hms. split; [apply gen_wave_returns|].
  intros audio_bytes rate H.
  rewrite (gen_wave_sample_count _ _ _ _ _ _ H).
  rewrite Z.quot_div_nonneg by lia.
  assert (Hq : (1 <= 44100 * ms / 1000)%Z) by (apply Z.div_le_lower_bound; lia).
  destruct (_ <=? 1)%Z eqn:E; [apply Z.leb_le in E | apply Z.leb_gt in E]; lia.
Qed.

Lemma gen_wave_length_witness :
  exists audio_bytes,
    gen_wave "Sine" 1000 200 50 = Ret (audio_bytes, 44100%Z)
    /\ Z.of_nat (List.length (samples audio_bytes)) = 8820%Z.
Proof.
  destruct (gen_wave_length Sine 1000 200 50 ltac:(lia)) as [Hret Hlen].
  destruct (Hret ltac:(lia)) as [bs Hbs].
  exists bs. split; [exact Hbs | exact (Hlen bs _ Hbs)].
Defined.

(** C5, counterexample. A 7 ms sine at volume 50 has 308 samples, while
    [44100 * 7 / 1000 = 308.7] rounds to 309. *)
Lemma gen_wave_length_not_rounded :
  exists audio_bytes,
    gen_wave "Sine" 1000 7 50 = Ret (audio_bytes, 44100%Z)
    /\ List.length (samples audio_bytes) = 308%nat
    /\ round_div (44100 * 7) 1000 = 309%Z.
Proof.
  destruct (gen_wave_returns Sine 1000 7 50 ltac:(lia)) as [bs Hbs].
  exists bs. split; [exact Hbs|]. split; [|reflexivity].
  rewrite (gen_wave_sample_count Sine _ _ _ _ _ Hbs). reflexivity.
Qed.

(** A duration of 0 ms still yields one sample: [linspace] returns [[start]]
    for every [num <= 1]. *)
Lemma gen_wave_zero_duration :
  exists audio_bytes,
    gen_wave "Sine" 1000 0 50 = Ret (audio_bytes, 44100%Z)
    /\ List.length (samples audio_bytes) = 1%nat.
Proof.
  destruct (gen_wave_returns Sine 1000 0 50 ltac:(lia)) as [bs Hbs].
  exists bs. split; [exact Hbs|].
  rewrite (gen_wave_sample_count Sine _ _ _ _ _ Hbs). reflexivity.
Qed.

(** ** Tone synthesizer: playback *)

(** [play_tone] always returns; when the waveform or the device fails, it
    prints the error. *)
Lemma play_tone_cases (playback : outcome unit) (shape : string)
  (freq ms vol : Z) (device : option Z) (w : list event) :
  play_tone playback shape freq ms vol device w =
  match gen_wave shape freq ms vol, playback with
  | Raise e, _ =>
      (Ret tt, w ++ [EvPrint (String.append "Error playing tone: " (exn_str e))])
  | Ret r, Raise e =>
      (Ret tt, w ++ [EvPrint (String.append "Error playing tone: " (exn_str e))])
  | Ret r, Ret _ => (Ret tt, w ++ [EvPlay device (fst r) (snd r)])
  end.
Proof.
  unfold play_tone, stream_write. st_unfold.
  destruct (gen_wave shape freq ms vol) as [r|e]; simpl.
  - destruct playback as [[]|e]; reflexivity.
  - reflexivity.
Qed.

Lemma play_tone_returns (playback : outcome unit) (shape : string)
  (freq ms vol : Z) (device : option Z) (w : list event) :
  fst (play_tone playback shape freq ms vol device w) = Ret tt.
Proof.
  rewrite play_tone_cases.
  destruct (gen_wave shape freq ms vol), playback; reflexivity.
Qed.

(** ** Monitor loop *)

Lemma drain_settings (queued : list Settings) (m : MonitorState) :
  Monitor.drain queued m = Monitor.set_settings (settings (Monitor.drain queued m)) m.
Proof.
  unfold Monitor.drain. revert m.
  induction queued as [|s l IH]; intros m; simpl.
  - now destruct m.
  - rewrite IH. reflexivity.
Qed.

(** The drain keeps the last settings put on the queue. *)
Lemma drain_last (queued : list Settings) (m : MonitorState) :
  settings (Monitor.drain queued m) =
  match rev queued with
  | [] => settings m
  | s :: _ => Some s
  end.
Proof.
  unfold Monitor.drain. rewrite <- fold_left_rev_right.
  destruct (rev queued); reflexivity.
Qed.

(** A cycle whose capture fails: the error goes to the UI queue, the stop
    event is set and the loop is left. *)
Lemma body_capture_error (env : cycle_env) (m : MonitorState) (s : Settings) (e : exn) :
  settings (Monitor.drain (pushed env) m) = Some s ->
  capture env = Raise e ->
  Monitor.body env m =
  (Ret Break,
   {| settings := Some s;
      q_ui := q_ui m ++ [ERR (exn_str e)];
      stop_evt := true;
      trace := trace m ++ [capture_event s] |}).
Proof.
  intros Hs Hc. unfold Monitor.body, St.bind, St.modify, St.get.
  rewrite drain_settings, Hs. simpl.
  unfold St.try_except, St.bind, Monitor.read_input, St.bind, Monitor.on_trace,
    St.modify, St.lift. simpl.
  rewrite Hc. reflexivity.
Qed.

(** A cycle whose capture and loudness computation succeed goes on to the
    next one, whatever the playback does. *)
Lemma body_capture_ok (env : cycle_env) (m : MonitorState) (s : Settings)
  (rec_flat : list R) (db : R) :
  settings (Monitor.drain (pushed env) m) = Some s ->
  capture env = Ret rec_flat ->
  Monitor.loudness rec_flat = Ret db ->
  Monitor.body env m =
  (Ret Continue,
   {| settings := Some s;
      q_ui := q_ui m ++ [DB db];
      stop_evt := stop_evt m;
      trace :=
        (if Rlt_dec (thresh s) db then
           snd (play_tone (playback env) (shape s) (freq s) (dur s) (vol s)
                  (output_device s) (trace m ++ [capture_event s]))
         else trace m ++ [capture_event s])
        ++ [EvSleep (delay s)] |}).
Proof.
  intros Hs Hc Hdb. unfold Monitor.body, St.bind, St.modify, St.get.
  rewrite drain_settings, Hs. cbn -[Monitor.loudness play_tone Py.int].
  unfold St.try_except, St.bind, Monitor.read_input, St.bind, Monitor.on_trace,
    St.modify, St.lift. cbn -[Monitor.loudness play_tone Py.int].
  rewrite Hc. unfold St.ret. cbn -[Monitor.loudness play_tone Py.int].
  rewrite Hdb.
  destruct (Rlt_dec (thresh s) db); cbn -[play_tone Py.int]; [|reflexivity].
  pose proof (play_tone_returns (playback env) (shape s) (freq s) (dur s) (vol s)
                (output_device s) (trace m ++ [capture_event s])) as Hret.
  unfold capture_event in *.
  destruct (play_tone _ _ _ _ _ _ _) as [res w]. simpl in Hret. subst res.
  reflexivity.
Qed.

Lemma run_step (env : cycle_env) (rest : list cycle_env) (m : MonitorState) :
  stop_evt m = false -> stop_pressed env = false ->
  Monitor.run (env :: rest) m =
  match Monitor.body env m with
  | (Ret Continue, m') => Monitor.run rest m'
  | (Ret Break, m') => (Returned, m')
  | (Raise e, m') => (Died e, m')
  end.
Proof.
  intros Hm He. destruct m as [st q stop tr]. simpl in Hm. subst stop.
  cbn [Monitor.run]. rewrite He. reflexivity.
Qed.

(** Once the stop event is set, [run] does nothing more. *)
Lemma run_stopped (env : cycle_env) (rest : list cycle_env) (m : MonitorState) :
  stop_evt m = true -> Monitor.run (env :: rest) m = (Returned, m).
Proof.
  intros Hm. destruct m as [st q stop tr]. simpl in Hm. subst stop.
  reflexivity.
Qed.

(** C4. In a cycle of a running monitor that has settings and whose capture
    raises [e], the loop puts [("ERR", str(e))] on the UI queue, sets its stop
    event and returns: no capture is attempted for any later cycle, and a
    [run] started again on that state returns at once. *)
Theorem capture_error_stops_monitor (env : cycle_env) (rest : list cycle_env)
  (m : MonitorState) (s : Settings) (e : exn) :
  stop_evt m = false ->
  stop_pressed env = false ->
  settings (Monitor.drain (pushed env) m) = Some s ->
  capture env = Raise e ->
  let m' := {| settings := Some s;
               q_ui := q_ui m ++ [ERR (exn_str e)];
               stop_evt := true;
               trace := trace m ++ [capture_event s] |} in
  Monitor.run (env :: rest) m = (Returned, m')
  /\ (forall env' later, Monitor.run (env' :: later) m' = (Returned, m')).
Proof.
  intros Hm He Hs Hc m'. split.
  - rewrite run_step by assumption.
    now rewrite (body_capture_error env m s e Hs Hc).
  - intros env' later. now apply run_stopped.
Qed.

Lemma capture_error_stops_monitor_witness :
  Monitor.run [capture_fails; playback_fails] Monitor.new =
  (Returned,
   {| settings := Some (settings_at (-30));
      q_ui := [ERR "device unavailable"];
      stop_evt := true;
      trace := [capture_event (settings_at (-30))] |}).
Proof.
  exact (proj1 (capture_error_stops_monitor capture_fails [playback_fails]
                  Monitor.new (settings_at (-30)) device_lost
                  eq_refl eq_refl eq_refl eq_refl)).
Defined.

(** * Further properties *)

(** ** Numeric helpers *)

Lemma range_nth (n : Z) (i : nat) (d : Z) :
  (i < Z.to_nat n)%nat -> nth i (range n) d = Z.of_nat i.
Proof.
  intros Hi. unfold range.
  rewrite (nth_indep _ d (Z.of_nat 0)) by now rewrite length_map, length_seq.
  rewrite map_nth, seq_nth by exact Hi. reflexivity.
Qed.

Lemma linspace_point (start stop : R) (num : Z) (i : nat) (d : R) :
  (2 <= num)%Z -> (i < Z.to_nat num)%nat ->
  nth i (linspace start stop num) d =
  start + (stop - start) / IZR (num - 1) * INR i.
Proof.
  intros Hnum Hi. unfold linspace.
  destruct (num <=? 1)%Z eqn:E; [apply Z.leb_le in E; lia|].
  set (f := fun i0 : Z => start + (stop - start) / IZR (num - 1) * IZR i0).
  rewrite (nth_indep _ d (f 0%Z)) by now rewrite length_map, length_range.
  rewrite map_nth, (range_nth num i 0%Z Hi). unfold f.
  now rewrite <- INR_IZR_INZ.
Qed.

(** X1. [linspace] returns [num] points, one point when [num] is 1 or
    less (also for 0 and negative numbers), and its first point is [start]. *)
Theorem linspace_length_start (start stop : R) (num : Z) :
  List.length (linspace start stop num) = Z.to_nat (Z.max num 1)
  /\ nth 0 (linspace start stop num) 0 = start.
Proof.
  rewrite linspace_length.
  destruct (Z.leb_spec num 1) as [Hle|Hgt].
  - split; [lia|]. unfold linspace.
    destruct (Z.leb_spec num 1); [reflexivity | lia].
  - split; [f_equal; lia|].
    rewrite linspace_point by lia. simpl INR. lra.
Qed.

(** X2. When [start <= stop], the points of [linspace] never decrease
    along the list and none lies below [start]. *)
Theorem linspace_monotone (start stop : R) (num : Z) (i j : nat) :
  start <= stop ->
  (2 <= num)%Z ->
  (i <= j)%nat -> (j < Z.to_nat num)%nat ->
  start <= nth i (linspace start stop num) 0
  /\ nth i (linspace start stop num) 0 <= nth j (linspace start stop num) 0.
Proof.
  intros Hle Hnum Hij Hj.
  rewrite !linspace_point by lia.
  assert (Hn : 0 < IZR (num - 1)) by (apply IZR_lt; lia).
  assert (Hstep : 0 <= (stop - start) / IZR (num - 1)).
  { apply Rmult_le_pos; [lra|]. left. now apply Rinv_0_lt_compat. }
  assert (Hi0 : 0 <= INR i) by apply pos_INR.
  assert (Hij' : INR i <= INR j) by now apply le_INR.
  set (step := (stop - start) / IZR (num - 1)) in *.
  split; nra.
Qed.

Lemma linspace_monotone_witness :
  nth 1 (linspace 0 1 3) 0 <= nth 2 (linspace 0 1 3) 0.
Proof.
  exact (proj2 (linspace_monotone 0 1 3 1 2 ltac:(lra) ltac:(lia)
                  ltac:(lia) ltac:(simpl; lia))).
Defined.

Lemma clip1_within (lo hi v : R) :
  lo <= hi -> lo <= Py.max lo (Py.min hi v) <= hi.
Proof.
  intros H. unfold Py.max, Py.min.
  destruct (Rlt_dec v hi); destruct (Rlt_dec lo _); lra.
Qed.

Lemma clip1_inside (lo hi v : R) :
  lo <= v <= hi -> Py.max lo (Py.min hi v) = v.
Proof.
  intros H. unfold Py.max, Py.min.
  destruct (Rlt_dec v hi); destruct (Rlt_dec lo _); lra.
Qed.

Lemma clip1_crossed (lo hi v : R) :
  hi < lo -> Py.max lo (Py.min hi v) = lo.
Proof.
  intros H. unfold Py.max, Py.min.
  destruct (Rlt_dec v hi); destruct (Rlt_dec lo _); lra.
Qed.

Lemma clip1_idem (lo hi v : R) :
  Py.max lo (Py.min hi (Py.max lo (Py.min hi v))) = Py.max lo (Py.min hi v).
Proof.
  destruct (Rle_dec lo hi) as [Hle|Hgt].
  - apply clip1_inside. now apply clip1_within.
  - apply Rnot_le_lt in Hgt. now rewrite !clip1_crossed.
Qed.

(** X3. [clip] keeps the length of the list and is idempotent, for any two
    bounds; with [min_val <= max_val] it puts every value between the bounds
    and leaves a list that already lies between them as it is. *)
Theorem clip_within (value : list R) (min_val max_val : R) :
  List.length (clip value min_val max_val) = List.length value
  /\ clip (clip value min_val max_val) min_val max_val = clip value min_val max_val
  /\ (min_val <= max_val ->
      Forall (fun v => min_val <= v <= max_val) (clip value min_val max_val)
      /\ (Forall (fun v => min_val <= v <= max_val) value ->
          clip value min_val max_val = value)).
Proof.
  unfold clip. split; [apply length_map|]. split.
  - rewrite map_map. apply map_ext. intros v. apply clip1_idem.
  - intros Hb. split.
    + apply Forall_forall. intros x Hx. apply in_map_iff in Hx.
      destruct Hx as (v & <- & _). now apply clip1_within.
    + intros Hin. induction Hin as [|v l Hv _ IH]; simpl; [reflexivity|].
      now rewrite IH, clip1_inside.
Qed.

Lemma clip_within_witness :
  Forall (fun v => -1 <= v <= 1) (clip [-3; 1 / 2; 7] (-1) 1).
Proof.
  apply (proj1 (proj2 (proj2 (clip_within [-3; 1 / 2; 7] (-1) 1)) ltac:(lra))).
Defined.

Lemma sum_from (l : list R) (acc : R) :
  fold_left Rplus l acc = acc + Py.sum l.
Proof.
  unfold Py.sum. revert acc.
  induction l as [|x l IH]; intros acc; simpl; [lra|].
  rewrite (IH (acc + x)), (IH (0 + x)). lra.
Qed.

Lemma sum_cons (x : R) (l : list R) : Py.sum (x :: l) = x + Py.sum l.
Proof. unfold Py.sum at 1. simpl. rewrite sum_from. lra. Qed.

Lemma sum_bounds (l : list R) (lo hi : R) :
  Forall (fun v => lo <= v <= hi) l ->
  INR (List.length l) * lo <= Py.sum l <= INR (List.length l) * hi.
Proof.
  induction 1 as [|x l Hx _ IH].
  - unfold Py.sum. simpl. lra.
  - rewrite sum_cons. change (List.length (x :: l)) with (S (List.length l)).
    rewrite S_INR. lra.
Qed.

Lemma mean_between (values : list R) (lo hi m : R) :
  Forall (fun v => lo <= v <= hi) values -> mean values = Ret m -> lo <= m <= hi.
Proof.
  intros Hall Hm. destruct values as [|x l]; [discriminate|].
  assert (Hm' : m = Py.sum (x :: l) / INR (List.length (x :: l)))
    by (unfold mean in Hm; congruence).
  clear Hm. subst m.
  pose proof (sum_bounds (x :: l) lo hi Hall) as Hs.
  assert (Hn : 0 < INR (List.length (x :: l))) by (apply lt_0_INR; simpl; lia).
  set (n := INR (List.length (x :: l))) in *.
  set (s := Py.sum (x :: l)) in *.
  assert (Hinv : 0 < / n) by now apply Rinv_0_lt_compat.
  assert (E1 : lo = n * lo * / n) by (field; lra).
  assert (E2 : hi = n * hi * / n) by (field; lra).
  unfold Rdiv. split.
  - rewrite E1. apply Rmult_le_compat_r; lra.
  - rewrite E2. apply Rmult_le_compat_r; lra.
Qed.

(** X4. [mean] raises [ZeroDivisionError] exactly on the empty list; the
    mean of values that are not negative is not negative, and the mean of
    values between 0 and 1 is between 0 and 1. *)
Theorem mean_bounds (values : list R) :
  (mean values = Raise ZeroDivisionError <-> values = [])
  /\ (Forall (fun v => 0 <= v) values ->
      forall m, mean values = Ret m -> 0 <= m)
  /\ (Forall (fun v => 0 <= v <= 1) values ->
      forall m, mean values = Ret m -> 0 <= m <= 1).
Proof.
  split; [|split].
  - destruct values; simpl; split; congruence.
  - intros Hall m Hm. destruct values as [|x l]; [discriminate|].
    assert (Hm' : m = Py.sum (x :: l) / INR (List.length (x :: l)))
      by (unfold mean in Hm; congruence).
    subst m. apply Rmult_le_pos.
    + apply sum_nonneg_from; [exact Hall | lra].
    + left. apply Rinv_0_lt_compat, lt_0_INR. simpl. lia.
  - intros Hall m Hm. now apply (mean_between values 0 1 m).
Qed.

Lemma mean_bounds_witness :
  0 <= Py.sum [1 / 4; 3 / 4] / INR 2 <= 1.
Proof.
  apply (proj2 (proj2 (mean_bounds [1 / 4; 3 / 4]))).
  - repeat constructor; lra.
  - reflexivity.
Defined.

(** X5. [sign] returns only -1, 0 and 1, keeps the length, returns 0
    exactly at the zeros, and is odd: negating the input negates the
    output. *)
Theorem sign_values (x : list R) :
  List.length (sign x) = List.length x
  /\ Forall (fun s => s = -1 \/ s = 0 \/ s = 1) (sign x)
  /\ (forall i, nth i (sign x) 0 = 0 <-> nth i x 0 = 0)
  /\ sign (map Ropp x) = map Ropp (sign x).
Proof.
  unfold sign. split; [apply length_map|]. split; [|split].
  - apply Forall_forall. intros s Hs. apply in_map_iff in Hs.
    destruct Hs as (v & <- & _). unfold sign1.
    destruct (Rlt_dec 0 v); [auto|]. destruct (Rlt_dec v 0); auto.
  - intros i.
    replace 0 with (sign1 0) at 1
      by (unfold sign1; destruct (Rlt_dec 0 0); [lra|reflexivity]).
    rewrite map_nth. unfold sign1.
    destruct (Rlt_dec 0 (nth i x 0)); [split; lra|].
    destruct (Rlt_dec (nth i x 0) 0); split; lra.
  - rewrite !map_map. apply map_ext. intros v. unfold sign1.
    destruct (Rlt_dec 0 (- v)), (Rlt_dec 0 v), (Rlt_dec (- v) 0), (Rlt_dec v 0);
      lra.
Qed.

(** ** Level estimator: every buffer *)

Lemma ln_10_gt_1 : 1 < ln 10.
Proof.
  assert (H : ln (exp 1) < ln 10).
  { apply ln_increasing; [apply exp_pos|]. pose proof exp_le_3. lra. }
  now rewrite ln_exp in H.
Qed.

Lemma ln_1_plus (x : R) : 0 < x -> ln (1 + x) < x.
Proof.
  intros Hx. rewrite <- (ln_exp x) at 2.
  apply ln_increasing; [lra|]. apply exp_ineq1. lra.
Qed.

Lemma ln_le_compat (x y : R) : 0 < x -> x <= y -> ln x <= ln y.
Proof.
  intros Hx [Hlt| ->]; [left; now apply ln_increasing | right; reflexivity].
Qed.

Lemma rms_to_db_value (rms : R) :
  0 <= rms -> Monitor.rms_to_db rms = Ret (20 * (ln (rms + 1e-10) / ln 10)).
Proof.
  intros H. unfold Monitor.rms_to_db, log10.
  pose proof epsilon_pos.
  destruct (Rlt_dec 0 (rms + 1e-10)); [reflexivity | lra].
Qed.

Lemma db_increasing (a b : R) :
  0 <= a -> a < b ->
  20 * (ln (a + 1e-10) / ln 10) < 20 * (ln (b + 1e-10) / ln 10).
Proof.
  intros Ha Hab. pose proof epsilon_pos. pose proof ln_10_pos as H10.
  assert (Hln : ln (a + 1e-10) < ln (b + 1e-10)) by (apply ln_increasing; lra).
  apply Rmult_lt_compat_l; [lra|].
  apply Rmult_lt_compat_r; [now apply Rinv_0_lt_compat | exact Hln].
Qed.

Lemma db_floor (a : R) : 0 <= a -> -200 <= 20 * (ln (a + 1e-10) / ln 10).
Proof.
  intros Ha. pose proof epsilon_pos. pose proof ln_10_pos as H10.
  assert (Hln : ln 1e-10 <= ln (a + 1e-10)) by (apply ln_le_compat; lra).
  rewrite ln_epsilon in Hln.
  assert (Hq : -10 <= ln (a + 1e-10) / ln 10).
  { apply Rmult_le_reg_r with (ln 10); [exact H10|].
    unfold Rdiv. rewrite Rmult_assoc, Rinv_l by lra. lra. }
  lra.
Qed.

Lemma db_ceiling (a : R) :
  0 <= a <= 1 -> 20 * (ln (a + 1e-10) / ln 10) < 1e-8.
Proof.
  intros Ha. pose proof epsilon_pos as He. pose proof ln_10_gt_1 as H10.
  assert (Hln : ln (a + 1e-10) <= ln (1 + 1e-10)) by (apply ln_le_compat; lra).
  pose proof (ln_1_plus 1e-10 He) as Hx.
  assert (Hq : ln (a + 1e-10) / ln 10 < 1e-10).
  { apply Rmult_lt_reg_r with (ln 10); [lra|].
    unfold Rdiv. rewrite Rmult_assoc, Rinv_l by lra.
    assert (1e-10 * 1 < 1e-10 * ln 10) by (apply Rmult_lt_compat_l; lra).
    lra. }
  lra.
Qed.

(** X6. For a non-negative RMS, [rms_to_db] raises nothing, is at least
    -200 dB, and never decreases when the RMS grows. *)
Theorem rms_to_db_monotone (a b : R) :
  0 <= a -> a <= b ->
  exists da db,
    Monitor.rms_to_db a = Ret da /\ Monitor.rms_to_db b = Ret db
    /\ -200 <= da /\ da <= db.
Proof.
  intros Ha Hab. do 2 eexists.
  rewrite !rms_to_db_value by lra.
  repeat split; [now apply db_floor|].
  destruct Hab as [Hlt| ->]; [left; now apply db_increasing | right; reflexivity].
Qed.

Lemma rms_to_db_monotone_witness :
  exists da db,
    Monitor.rms_to_db 0 = Ret da /\ Monitor.rms_to_db 1 = Ret db
    /\ -200 <= da /\ da <= db.
Proof.
  apply (rms_to_db_monotone 0 1); lra.
Defined.

Lemma clipped_squares_unit (l : list R) :
  Forall (fun v => 0 <= v <= 1) (map (fun r => r * r) (clip l (-1) 1)).
Proof.
  unfold clip. rewrite map_map. apply Forall_forall. intros x Hx.
  apply in_map_iff in Hx. destruct Hx as (v & <- & _).
  pose proof (clip1_within (-1) 1 v ltac:(lra)). nra.
Qed.

(** The RMS of a non-empty buffer exists and lies between 0 and 1. *)
Lemma rms_unit (l : list R) :
  l <> [] ->
  exists m, mean (map (fun r => r * r) (clip l (-1) 1)) = Ret m
            /\ Py.sqrt m = Ret (R_sqrt.sqrt m)
            /\ 0 <= R_sqrt.sqrt m <= 1.
Proof.
  intros Hne.
  destruct (mean_squares (clip l (-1) 1)) as (m & Hm & Hm0);
    [now apply clip_nonempty|].
  exists m. split; [exact Hm|]. split; [now apply sqrt_of_nonneg|].
  pose proof (mean_between _ 0 1 m (clipped_squares_unit l) Hm) as [_ Hm1].
  split; [apply sqrt_pos|].
  rewrite <- sqrt_1. now apply sqrt_le_1_alt.
Qed.

(** X7. For every non-empty capture buffer, whatever the samples, the
    loudness computation raises nothing and its result lies between -200 dB
    and a hair above 0 dB (below 1e-8). *)
Theorem loudness_bounds (rec_flat : list R) :
  rec_flat <> [] ->
  exists db, Monitor.loudness rec_flat = Ret db /\ -200 <= db < 1e-8.
Proof.
  intros Hne. destruct (rms_unit rec_flat Hne) as (m & Hm & Hs & Hr).
  unfold Monitor.loudness. rewrite Hm. simpl. rewrite Hs. simpl.
  rewrite rms_to_db_value by lra.
  eexists. split; [reflexivity|].
  split; [apply db_floor; lra | now apply db_ceiling].
Qed.

Lemma loudness_bounds_witness :
  exists db, Monitor.loudness [1 / 2; -3] = Ret db /\ -200 <= db < 1e-8.
Proof.
  apply (loudness_bounds [1 / 2; -3]). discriminate.
Defined.

Lemma sum_ones (l : list R) :
  Forall (fun v => v = 1) l -> Py.sum l = INR (List.length l).
Proof.
  induction 1 as [|x l Hx _ IH].
  - reflexivity.
  - rewrite sum_cons, IH. cbn [List.length]. rewrite S_INR. lra.
Qed.

Lemma clipped_square_full (v : R) :
  1 <= Rabs v -> Py.max (-1) (Py.min 1 v) * Py.max (-1) (Py.min 1 v) = 1.
Proof.
  intros Hv. unfold Py.max, Py.min.
  destruct (Rlt_dec v 1) as [Hlt|Hge].
  - assert (Hneg : v <= -1).
    { unfold Rabs in Hv. destruct (Rcase_abs v); lra. }
    destruct (Rlt_dec (-1) v); [lra|]. lra.
  - destruct (Rlt_dec (-1) 1); lra.
Qed.

(** X8. A non-empty buffer whose samples all have magnitude 1 or more (full
    scale after clipping) has loudness [20 log10 (1 + 1e-10)], which is
    above 0 dB by less than 1e-8. *)
Theorem loudness_full_scale (rec_flat : list R) :
  rec_flat <> [] ->
  Forall (fun r => 1 <= Rabs r) rec_flat ->
  Monitor.loudness rec_flat = Ret (20 * (ln (1 + 1e-10) / ln 10))
  /\ 0 < 20 * (ln (1 + 1e-10) / ln 10) < 1e-8.
Proof.
  intros Hne Hfull. split.
  - unfold Monitor.loudness.
    assert (Hones : Forall (fun v => v = 1)
                      (map (fun r => r * r) (clip rec_flat (-1) 1))).
    { unfold clip. rewrite map_map. apply Forall_forall. intros x Hx.
      apply in_map_iff in Hx. destruct Hx as (v & <- & Hv).
      apply clipped_square_full.
      rewrite Forall_forall in Hfull. now apply Hfull. }
    destruct rec_flat as [|r l]; [congruence|].
    unfold mean. cbn [clip map]. fold (clip l (-1) 1).
    change (Py.max (-1) (Py.min 1 r) * Py.max (-1) (Py.min 1 r)
            :: map (fun r0 => r0 * r0) (clip l (-1) 1))
      with (map (fun r0 => r0 * r0) (clip (r :: l) (-1) 1)).
    rewrite (sum_ones _ Hones).
    assert (Hn : INR (List.length (map (fun r0 => r0 * r0) (clip (r :: l) (-1) 1))) <> 0).
    { apply not_0_INR. unfold clip. rewrite !length_map. discriminate. }
    unfold Rdiv. rewrite Rinv_r by exact Hn.
    cbn [Py.bind]. rewrite (sqrt_of_nonneg 1) by lra. rewrite sqrt_1.
    cbn [Py.bind]. apply rms_to_db_value. lra.
  - split; [|apply db_ceiling; lra].
    pose proof epsilon_pos. pose proof ln_10_pos as H10.
    assert (Hln : 0 < ln (1 + 1e-10)).
    { rewrite <- ln_1. apply ln_increasing; lra. }
    apply Rmult_lt_0_compat; [lra|].
    apply Rmult_lt_0_compat; [exact Hln | now apply Rinv_0_lt_compat].
Qed.

Lemma loudness_full_scale_witness :
  Monitor.loudness [1; -1; 2] = Ret (20 * (ln (1 + 1e-10) / ln 10)).
Proof.
  apply (proj1 (loudness_full_scale [1; -1; 2] ltac:(discriminate)
                  ltac:(repeat constructor; unfold Rabs;
                        match goal with |- context [Rcase_abs ?x] =>
                          destruct (Rcase_abs x) end; lra))).
Defined.

(** ** Tone synthesizer: more on the waveform *)

Lemma gen_wave_shape_of (name : string) (freq ms volume : Z) :
  gen_wave name freq ms volume =
  gen_wave (shape_name (shape_of name)) freq ms volume.
Proof.
  unfold shape_of.
  destruct (String.eqb_spec name "Sine") as [->|H1]; [reflexivity|].
  destruct (String.eqb_spec name "Square") as [->|H2]; [reflexivity|].
  now apply gen_wave_other_shape.
Qed.

Lemma int_zero : Py.int 0 = 0%Z.
Proof.
  unfold Py.int. destruct (Rle_dec 0 0); [|lra].
  symmetry. apply Int_part_spec. simpl. lra.
Qed.

Lemma int_opp (x : R) : Py.int (- x) = (- Py.int x)%Z.
Proof.
  destruct (Rtotal_order x 0) as [Hneg|[->|Hpos]].
  - unfold Py.int.
    destruct (Rle_dec 0 (- x)); [|lra]. destruct (Rle_dec 0 x); [lra|]. lia.
  - rewrite Ropp_0, int_zero. reflexivity.
  - unfold Py.int.
    destruct (Rle_dec 0 (- x)); [lra|]. destruct (Rle_dec 0 x); [|lra].
    now rewrite Ropp_involutive.
Qed.

(** X9. With volume 0 [gen_wave] returns, for every shape name, frequency
    and duration, and every sample is 0. *)
Theorem gen_wave_volume_zero (name : string) (freq ms : Z) :
  exists audio_bytes,
    gen_wave name freq ms 0 = Ret (audio_bytes, 44100%Z)
    /\ Forall (fun v => v = 0%Z) (samples audio_bytes).
Proof.
  rewrite gen_wave_shape_of.
  destruct (gen_wave_returns (shape_of name) freq ms 0 ltac:(lia)) as [bs Hbs].
  exists bs. split; [exact Hbs|].
  destruct (gen_wave_result _ _ _ _ _ _ Hbs) as (_ & -> & _).
  apply Forall_forall. intros v Hv. apply in_map_iff in Hv.
  destruct Hv as (t & <- & _). unfold spec_sample.
  replace (spec_wave (shape_of name) (IZR freq) t * (0 / 100) * 32767) with 0
    by (unfold Rdiv; rewrite Rmult_0_l, Rmult_0_r, Rmult_0_l; reflexivity).
  apply int_zero.
Qed.

Lemma struct_pack_h_length (audio : list Z) (bs : list byte) :
  struct_pack_h audio = Ret bs -> List.length bs = (2 * List.length audio)%nat.
Proof.
  revert bs. induction audio as [|v l IH]; simpl; intros bs H.
  - now injection H as <-.
  - destruct (pack_h v) as [b|e] eqn:Ev; [|discriminate].
    destruct (struct_pack_h l) as [bs'|e] eqn:El; [|discriminate].
    simpl in H. injection H as <-.
    destruct (pack_h_returns v b Ev) as [_ ->].
    rewrite length_app, (IH bs' eq_refl). simpl. lia.
Qed.

Lemma pack_h_out_of_range (v : Z) : ~ in_int16 v -> pack_h v = Raise StructError.
Proof.
  unfold in_int16, pack_h. intros H.
  destruct ((-32768 <=? v)%Z && (v <=? 32767)%Z) eqn:E; [|reflexivity].
  apply andb_true_iff in E. destruct E as [E1%Z.leb_le E2%Z.leb_le]. lia.
Qed.

Lemma in_int16_dec (v : Z) : {in_int16 v} + {~ in_int16 v}.
Proof.
  unfold in_int16.
  destruct (Z_le_dec (-32768) v), (Z_le_dec v 32767); (left; lia) || (right; lia).
Qed.

Lemma struct_pack_h_out_of_range (audio : list Z) :
  Exists (fun v => ~ in_int16 v) audio -> struct_pack_h audio = Raise StructError.
Proof.
  induction audio as [|v l IH]; intros H; [inversion H|].
  simpl. destruct (in_int16_dec v) as [Hin|Hout].
  - rewrite (pack_h_in_range v Hin). simpl.
    rewrite IH; [reflexivity|]. inversion H; subst; [contradiction | assumption].
  - now rewrite (pack_h_out_of_range v Hout).
Qed.

(** X10. Packing under ['<h'] returns exactly when every sample is in the
    16-bit signed range and raises [struct.error] otherwise; what it returns
    has two bytes per sample and reads back as the same samples. *)
Theorem struct_pack_h_round_trip (audio : list Z) :
  (Forall in_int16 audio ->
   exists bs, struct_pack_h audio = Ret bs
              /\ samples bs = audio
              /\ List.length bs = (2 * List.length audio)%nat)
  /\ (~ Forall in_int16 audio -> struct_pack_h audio = Raise StructError).
Proof.
  split.
  - intros Hall. destruct (struct_pack_h_in_range audio Hall) as [bs Hbs].
    exists bs. split; [exact Hbs|]. split.
    + now destruct (struct_pack_h_returns audio bs Hbs).
    + now apply struct_pack_h_length.
  - intros Hnot. apply struct_pack_h_out_of_range.
    apply neg_Forall_Exists_neg; [|exact Hnot].
    intros v. apply in_int16_dec.
Qed.

Lemma struct_pack_h_round_trip_witness :
  exists bs, struct_pack_h [-32768; -1; 0; 258; 32767]%Z = Ret bs
             /\ samples bs = [-32768; -1; 0; 258; 32767]%Z
             /\ List.length bs = 10%nat.
Proof.
  apply (proj1 (struct_pack_h_round_trip [-32768; -1; 0; 258; 32767]%Z)).
  repeat constructor; unfold in_int16; lia.
Defined.

(** X11. Whatever [gen_wave] returns for the square wave holds only three
    sample values: 0 and plus and minus [int(volume / 100 * 32767)]. *)
Theorem gen_wave_square_levels (freq ms volume : Z)
  (audio_bytes : list byte) (rate : Z) :
  gen_wave "Square" freq ms volume = Ret (audio_bytes, rate) ->
  let k := Py.int (IZR volume / 100 * 32767) in
  Forall (fun v => v = k \/ v = 0%Z \/ v = (- k)%Z) (samples audio_bytes).
Proof.
  intros H. cbv zeta.
  destruct (gen_wave_result Square _ _ _ _ _ H) as (_ & -> & _).
  apply Forall_forall. intros v Hv. apply in_map_iff in Hv.
  destruct Hv as (t & <- & _). unfold spec_sample, spec_wave.
  destruct (Rlt_dec 0 _); [|destruct (Rlt_dec _ 0)].
  - left. apply f_equal. ring.
  - right. right. rewrite <- int_opp. apply f_equal. ring.
  - right. left. transitivity (Py.int 0); [apply f_equal; ring | apply int_zero].
Qed.

Lemma gen_wave_square_levels_witness :
  exists audio_bytes,
    gen_wave "Square" 440 100 50 = Ret (audio_bytes, 44100%Z)
    /\ Forall (fun v => v = Py.int (IZR 50 / 100 * 32767) \/ v = 0%Z
                        \/ v = (- Py.int (IZR 50 / 100 * 32767))%Z)
         (samples audio_bytes).
Proof.
  destruct (gen_wave_returns Square 440 100 50 ltac:(lia)) as [bs Hbs].
  exists bs. split; [exact Hbs|].
  exact (gen_wave_square_levels 440 100 50 bs 44100%Z Hbs).
Defined.

(** A square wave above full volume does not fit 16 bits. *)
Lemma gen_wave_square_raises (freq ms volume : Z) (t : R) :
  (100 < volume)%Z ->
  In t (linspace 0 (IZR ms / 1000) (Z.quot (44100 * ms) 1000)) ->
  sin (2 * PI * IZR freq * t) <> 0 ->
  gen_wave "Square" freq ms volume = Raise StructError.
Proof.
  intros Hvol Hin Hsin.
  rewrite (gen_wave_unfold Square).
  rewrite struct_pack_h_out_of_range; [reflexivity|].
  apply Exists_exists.
  exists (spec_sample Square (IZR freq) (IZR volume) t).
  split; [now apply in_map|].
  assert (Hk : (33094 <= Py.int (IZR volume / 100 * 32767))%Z).
  { assert (Hv : 101 <= IZR volume) by (apply IZR_le; lia).
    destruct (int_truncates (IZR volume / 100 * 32767)) as [Hpos _].
    specialize (Hpos ltac:(lra)).
    assert (Hlt : IZR 33093 < IZR (Py.int (IZR volume / 100 * 32767)))
      by lra.
    apply lt_IZR in Hlt. lia. }
  unfold in_int16, spec_sample, spec_wave.
  destruct (Rlt_dec 0 _); [|destruct (Rlt_dec _ 0); [|lra]].
  - replace (1 * (IZR volume / 100) * 32767) with (IZR volume / 100 * 32767)
      by ring. lia.
  - replace (-1 * (IZR volume / 100) * 32767)
      with (- (IZR volume / 100 * 32767)) by ring.
    rewrite int_opp. lia.
Qed.

(** X13. A square wave with a volume above 100 overflows the 16-bit range:
    as soon as one time point has a non-zero sine, [gen_wave] raises
    [struct.error], and [play_tone] then prints the error without touching
    the output device. *)
Theorem gen_wave_square_overflow (freq ms volume : Z) (t : R) :
  (100 < volume)%Z ->
  In t (linspace 0 (IZR ms / 1000) (Z.quot (44100 * ms) 1000)) ->
  sin (2 * PI * IZR freq * t) <> 0 ->
  gen_wave "Square" freq ms volume = Raise StructError
  /\ forall playback device w,
       play_tone playback "Square" freq ms volume device w =
       (Ret tt,
        w ++ [EvPrint (String.append "Error playing tone: " (exn_str StructError))]).
Proof.
  intros Hvol Hin Hsin.
  assert (Hraise : gen_wave "Square" freq ms volume = Raise StructError)
    by now apply (gen_wave_square_raises freq ms volume t).
  split; [exact Hraise|].
  intros playback device w. rewrite play_tone_cases, Hraise. reflexivity.
Qed.

Lemma second_time_point :
  nth 1 (linspace 0 (IZR 1000 / 1000) (Z.quot (44100 * 1000) 1000)) 0 = / 44099.
Proof.
  change (Z.quot (44100 * 1000) 1000) with 44100%Z.
  rewrite linspace_point by lia.
  change (44100 - 1)%Z with 44099%Z. simpl INR. field.
Qed.

Lemma gen_wave_square_overflow_witness :
  gen_wave "Square" 1 1000 200 = Raise StructError.
Proof.
  apply (proj1 (gen_wave_square_overflow 1 1000 200
                  (nth 1 (linspace 0 (IZR 1000 / 1000)
                            (Z.quot (44100 * 1000) 1000)) 0)
                  ltac:(lia)
                  ltac:(apply nth_In; rewrite linspace_length;
                        change (Z.quot (44100 * 1000) 1000) with 44100%Z;
                        destruct (Z.leb_spec 44100 1); lia)
                  ltac:(rewrite second_time_point;
                        apply Rgt_not_eq, Rlt_gt, sin_gt_0;
                        pose proof PI_RGT_0; [nra|];
                        assert (2 * PI * 1 * / 44099 = PI * (2 / 44099))
                          by field;
                        nra))).
Defined.

(** A one-second square wave of 1 Hz at volume 200 cannot be synthesized. *)
Lemma loud_square_raises : gen_wave "Square" 1 1000 200 = Raise StructError.
Proof.
  apply (gen_wave_square_raises 1 1000 200
           (nth 1 (linspace 0 (IZR 1000 / 1000) (Z.quot (44100 * 1000) 1000)) 0)).
  - lia.
  - apply nth_In. rewrite linspace_length.
    change (Z.quot (44100 * 1000) 1000) with 44100%Z.
    destruct (Z.leb_spec 44100 1); lia.
  - rewrite second_time_point.
    apply Rgt_not_eq, Rlt_gt, sin_gt_0; pose proof PI_RGT_0; [nra|].
    assert (2 * PI * 1 * / 44099 = PI * (2 / 44099)) by field.
    nra.
Qed.

(** ** Monitor loop: every kind of cycle *)

(** A cycle without settings only sleeps. *)
Lemma body_idle (env : cycle_env) (m : MonitorState) :
  settings (Monitor.drain (pushed env) m) = None ->
  Monitor.body env m =
  (Ret Continue,
   {| settings := None;
      q_ui := q_ui m;
      stop_evt := stop_evt m;
      trace := trace m ++ [EvSleep (1 / 10)] |}).
Proof.
  intros Hs. unfold Monitor.body, St.bind, St.modify, St.get.
  rewrite drain_settings, Hs. reflexivity.
Qed.

(** A cycle whose loudness computation raises lets the exception through. *)
Lemma body_loudness_error (env : cycle_env) (m : MonitorState) (s : Settings)
  (rec_flat : list R) (e : exn) :
  settings (Monitor.drain (pushed env) m) = Some s ->
  capture env = Ret rec_flat ->
  Monitor.loudness rec_flat = Raise e ->
  Monitor.body env m =
  (Raise e,
   {| settings := Some s;
      q_ui := q_ui m;
      stop_evt := stop_evt m;
      trace := trace m ++ [capture_event s] |}).
Proof.
  intros Hs Hc Hdb. unfold Monitor.body, St.bind, St.modify, St.get.
  rewrite drain_settings, Hs. cbn -[Monitor.loudness play_tone Py.int].
  unfold St.try_except, St.bind, Monitor.read_input, St.bind, Monitor.on_trace,
    St.modify, St.lift. cbn -[Monitor.loudness play_tone Py.int].
  rewrite Hc. unfold St.ret. cbn -[Monitor.loudness play_tone Py.int].
  rewrite Hdb. reflexivity.
Qed.

(** What one cycle can do to the UI queue and the stop event. *)
Lemma body_cases (env : cycle_env) (m : MonitorState) :
  (exists m', Monitor.body env m = (Ret Continue, m')
              /\ stop_evt m' = stop_evt m
              /\ (q_ui m' = q_ui m \/ exists db, q_ui m' = q_ui m ++ [DB db]))
  \/ (exists m' msg, Monitor.body env m = (Ret Break, m')
                     /\ stop_evt m' = true
                     /\ q_ui m' = q_ui m ++ [ERR msg])
  \/ (exists m' e, Monitor.body env m = (Raise e, m')
                   /\ stop_evt m' = stop_evt m
                   /\ q_ui m' = q_ui m).
Proof.
  destruct (settings (Monitor.drain (pushed env) m)) as [s|] eqn:Hs.
  - destruct (capture env) as [rec_flat|e] eqn:Hc.
    + destruct (Monitor.loudness rec_flat) as [db|e] eqn:Hdb.
      * left. eexists. split; [apply (body_capture_ok env m s rec_flat db Hs Hc Hdb)|].
        split; [reflexivity|]. right. exists db. reflexivity.
      * right. right. do 2 eexists.
        split; [apply (body_loudness_error env m s rec_flat e Hs Hc Hdb)|].
        split; reflexivity.
    + right. left. do 2 eexists.
      split; [apply (body_capture_error env m s e Hs Hc)|].
      split; reflexivity.
  - left. eexists. split; [apply (body_idle env m Hs)|].
    split; [reflexivity|]. left. reflexivity.
Qed.

(** X14. A monitor that never received settings attempts no audio input or
    output: every cycle only sleeps 0.1 s, nothing is put on the UI queue and
    the thread stays alive. *)
Theorem run_idle_without_settings (envs : list cycle_env) (m : MonitorState) :
  settings m = None ->
  stop_evt m = false ->
  Forall (fun env => pushed env = [] /\ stop_pressed env = false) envs ->
  Monitor.run envs m =
  (Alive,
   {| settings := None;
      q_ui := q_ui m;
      stop_evt := false;
      trace := trace m ++ repeat (EvSleep (1 / 10)) (List.length envs) |}).
Proof.
  intros Hs Hstop Hall. revert m Hs Hstop.
  induction Hall as [|env rest [Hp Hsp] _ IH]; intros m Hs Hstop.
  - destruct m as [st q stop tr]. simpl in *. subst.
    now rewrite app_nil_r.
  - rewrite run_step by assumption.
    rewrite body_idle by (rewrite Hp; exact Hs).
    rewrite IH by (simpl; first [reflexivity | assumption]).
    cbn [q_ui trace List.length repeat]. rewrite <- app_assoc. reflexivity.
Qed.

Lemma run_idle_without_settings_witness :
  Monitor.run
    [ {| stop_pressed := false; pushed := []; capture := Raise device_lost;
         playback := Raise device_lost |} ] Monitor.new =
  (Alive,
   {| settings := None; q_ui := []; stop_evt := false;
      trace := [EvSleep (1 / 10)] |}).
Proof.
  apply (run_idle_without_settings
           [ {| stop_pressed := false; pushed := []; capture := Raise device_lost;
                playback := Raise device_lost |} ] Monitor.new eq_refl eq_refl).
  repeat constructor.
Defined.

(** X15. Settings are last-write-wins: when several settings were pushed
    since the last cycle, the cycle records from the device of the newest
    one, whatever the older ones and the previous settings were, and keeps
    the newest as its settings. *)
Theorem run_uses_newest_settings (env : cycle_env) (m : MonitorState)
  (older : list Settings) (s : Settings) :
  stop_evt m = false ->
  stop_pressed env = false ->
  pushed env = older ++ [s] ->
  exists status rest_of_trace,
    settings (snd (Monitor.run [env] m)) = Some s
    /\ fst (Monitor.run [env] m) = status
    /\ trace (snd (Monitor.run [env] m)) =
       trace m ++ capture_event s :: rest_of_trace.
Proof.
  intros Hstop Hsp Hp.
  assert (Hs : settings (Monitor.drain (pushed env) m) = Some s).
  { rewrite drain_last, Hp, rev_app_distr. reflexivity. }
  rewrite run_step by assumption.
  destruct (capture env) as [rec_flat|e] eqn:Hc.
  - destruct (Monitor.loudness rec_flat) as [db|e] eqn:Hdb.
    + rewrite (body_capture_ok env m s rec_flat db Hs Hc Hdb).
      cbn [Monitor.run fst snd settings trace].
      destruct (Rlt_dec (thresh s) db).
      * rewrite play_tone_cases.
        destruct (gen_wave _ _ _ _); [destruct (playback env)|];
          cbn [snd]; rewrite <- !app_assoc; do 2 eexists;
          (split; [reflexivity|]); (split; [reflexivity|]); reflexivity.
      * rewrite <- !app_assoc. do 2 eexists.
        split; [reflexivity|]. split; reflexivity.
    + rewrite (body_loudness_error env m s rec_flat e Hs Hc Hdb).
      cbn [fst snd settings trace]. do 2 eexists.
      split; [reflexivity|]. split; reflexivity.
  - rewrite (body_capture_error env m s e Hs Hc).
    cbn [fst snd settings trace]. do 2 eexists.
    split; [reflexivity|]. split; reflexivity.
Qed.

Lemma run_uses_newest_settings_witness :
  settings (snd (Monitor.run
    [ {| stop_pressed := false;
         pushed := [settings_at (-30); settings_at (-45)];
         capture := Raise device_lost; playback := Ret tt |} ] Monitor.new))
  = Some (settings_at (-45)).
Proof.
  destruct (run_uses_newest_settings
              {| stop_pressed := false;
                 pushed := [settings_at (-30); settings_at (-45)];
                 capture := Raise device_lost; playback := Ret tt |}
              Monitor.new [settings_at (-30)] (settings_at (-45))
              eq_refl eq_refl eq_refl) as (st & tr & H & _).
  exact H.
Defined.

(** X16. In a cycle whose capture and tone synthesis succeed and whose
    output device works, the tone is played exactly once when the loudness
    is strictly above the threshold, with the bytes [gen_wave] made, and not
    at all when it is at or below the threshold; the level is reported in
    both cases. *)
Theorem run_alerts_above_threshold (env : cycle_env) (rest : list cycle_env)
  (m : MonitorState) (s : Settings) (rec_flat : list R) (db : R)
  (audio_bytes : list byte) (rate : Z) :
  stop_evt m = false ->
  stop_pressed env = false ->
  settings (Monitor.drain (pushed env) m) = Some s ->
  capture env = Ret rec_flat ->
  Monitor.loudness rec_flat = Ret db ->
  gen_wave (shape s) (freq s) (dur s) (vol s) = Ret (audio_bytes, rate) ->
  playback env = Ret tt ->
  Monitor.run (env :: rest) m =
  Monitor.run rest
    {| settings := Some s;
       q_ui := q_ui m ++ [DB db];
       stop_evt := false;
       trace := trace m ++
         (if Rlt_dec (thresh s) db then
            [capture_event s; EvPlay (output_device s) audio_bytes rate;
             EvSleep (delay s)]
          else [capture_event s; EvSleep (delay s)]) |}.
Proof.
  intros Hstop Hsp Hs Hc Hdb Hwave Hplay.
  rewrite run_step by assumption.
  rewrite (body_capture_ok env m s rec_flat db Hs Hc Hdb), Hstop.
  destruct (Rlt_dec (thresh s) db).
  - rewrite play_tone_cases, Hwave, Hplay. cbn [fst snd].
    rewrite <- !app_assoc. reflexivity.
  - rewrite <- !app_assoc. reflexivity.
Qed.

Lemma run_alerts_above_threshold_witness :
  exists audio_bytes,
    Monitor.run [alert_cycle] Monitor.new =
    (Alive,
     {| settings := Some (settings_at (-300));
        q_ui := [DB (-200)];
        stop_evt := false;
        trace := [capture_event (settings_at (-300));
                  EvPlay None audio_bytes 44100%Z;
                  EvSleep (2 / 100)] |}).
Proof.
  destruct (gen_wave_returns Sine 1000 200 50 ltac:(lia)) as [bs Hbs].
  exists bs.
  rewrite (run_alerts_above_threshold alert_cycle [] Monitor.new
             (settings_at (-300)) [0; 0; 0] (-200) bs 44100%Z
             eq_refl eq_refl eq_refl eq_refl
             (loudness_zeros [0; 0; 0] ltac:(discriminate)
                ltac:(repeat constructor))
             Hbs eq_refl).
  cbn [Monitor.run thresh settings_at].
  destruct (Rlt_dec (-300) (-200)) as [_|Hn]; [reflexivity | exfalso; lra].
Defined.

(** X17. A cycle whose capture returns an empty buffer kills the thread:
    [mean] raises [ZeroDivisionError] outside every [try], so nothing is
    reported on the UI queue and the stop event is not set. *)
Theorem run_dies_on_empty_buffer (env : cycle_env) (rest : list cycle_env)
  (m : MonitorState) (s : Settings) :
  stop_evt m = false ->
  stop_pressed env = false ->
  settings (Monitor.drain (pushed env) m) = Some s ->
  capture env = Ret [] ->
  Monitor.run (env :: rest) m =
  (Died ZeroDivisionError,
   {| settings := Some s;
      q_ui := q_ui m;
      stop_evt := false;
      trace := trace m ++ [capture_event s] |}).
Proof.
  intros Hstop Hsp Hs Hc.
  rewrite run_step by assumption.
  rewrite (body_loudness_error env m s [] ZeroDivisionError Hs Hc eq_refl).
  now rewrite Hstop.
Qed.

Lemma run_dies_on_empty_buffer_witness :
  fst (Monitor.run
         [ {| stop_pressed := false; pushed := [settings_at (-30)];
              capture := Ret []; playback := Ret tt |} ] Monitor.new)
  = Died ZeroDivisionError.
Proof.
  rewrite (run_dies_on_empty_buffer
             {| stop_pressed := false; pushed := [settings_at (-30)];
                capture := Ret []; playback := Ret tt |} []
             Monitor.new (settings_at (-30)) eq_refl eq_refl eq_refl eq_refl).
  reflexivity.
Defined.

(** X18. Along any run the UI queue only grows, by at most one message per
    cycle: a run adds level reports, then at most one error report; an error
    report is the last message, and after it the thread has returned with
    its stop event set. *)
Theorem run_reports (envs : list cycle_env) (m : MonitorState) :
  exists dbs tail,
    q_ui (snd (Monitor.run envs m)) = q_ui m ++ map DB dbs ++ tail
    /\ (List.length dbs + List.length tail <= List.length envs)%nat
    /\ (tail = []
        \/ exists msg, tail = [ERR msg]
                       /\ fst (Monitor.run envs m) = Returned
                       /\ stop_evt (snd (Monitor.run envs m)) = true).
Proof.
  revert m. induction envs as [|env rest IH]; intros m.
  - exists [], []. cbn. rewrite app_nil_r. auto.
  - cbn [Monitor.run].
    set (m0 := Monitor.set_stop_evt (stop_evt m || stop_pressed env) m).
    assert (Hq0 : q_ui m0 = q_ui m) by reflexivity.
    destruct (stop_evt m0) eqn:Hstop0.
    + exists [], []. cbn [fst snd map app List.length].
      rewrite Hq0, app_nil_r. split; [reflexivity|]. split; [lia | now left].
    + destruct (body_cases env m0)
        as [(m' & Hb & _ & Hq) | [(m' & msg & Hb & Hst & Hq) | (m' & e & Hb & _ & Hq)]];
        rewrite Hb.
      * destruct (IH m') as (dbs & tail & Hq' & Hlen & Htail).
        destruct Hq as [Hq | [db Hq]].
        -- exists dbs, tail. rewrite Hq', Hq, Hq0.
           split; [reflexivity|]. split; [cbn [List.length]; lia | exact Htail].
        -- exists (db :: dbs), tail. rewrite Hq', Hq, Hq0.
           split; [cbn [map]; rewrite <- !app_assoc; reflexivity|].
           split; [cbn [List.length]; lia | exact Htail].
      * exists [], [ERR msg]. cbn [fst snd map app List.length].
        rewrite Hq, Hq0. split; [reflexivity|]. split; [lia|].
        right. exists msg. auto.
      * exists [], []. cbn [fst snd map app List.length].
        rewrite Hq, Hq0, app_nil_r. split; [reflexivity|]. split; [lia | now left].
Qed.

(** ** Shared state and web endpoints: sequences of requests *)

Lemma control_flags (reqs : list web_request) (s : SharedState) :
  web_start_requested (Serve.control reqs s) =
    (web_start_requested s
     || existsb (fun r => match r with ReqStart => true | ReqStop => false end) reqs)
  /\ web_stop_requested (Serve.control reqs s) =
    (web_stop_requested s
     || existsb (fun r => match r with ReqStop => true | ReqStart => false end) reqs)
  /\ get_state (Serve.control reqs s) = get_state s
  /\ tts_queue (Serve.control reqs s) = tts_queue s.
Proof.
  unfold Serve.control. revert s.
  induction reqs as [|r rest IH]; intros s.
  - cbn. now rewrite !orb_false_r.
  - cbn [fold_left existsb].
    destruct (IH (match r with
                  | ReqStart => snd (Web.start_monitoring_web s)
                  | ReqStop => snd (Web.stop_monitoring_web s)
                  end)) as (H1 & H2 & H3 & H4).
    rewrite H1, H2, H3, H4.
    destruct r; cbn; rewrite ?orb_true_r, ?orb_false_r, ?orb_assoc;
      repeat split; try reflexivity;
      destruct (web_start_requested s), (web_stop_requested s); reflexivity.
Qed.

(** X19. Start and stop requests are coalesced and delivered once: after
    any sequence of requests, [check_web_requests] returns a pair that says
    whether a start and whether a stop was requested (or was still pending),
    the next call returns [(False, False)], and neither the requests nor the
    reads change the threshold, the status, the level or the speech queue. *)
Theorem check_web_requests_coalesces (reqs : list web_request) (s : SharedState) :
  let c1 := check_web_requests (Serve.control reqs s) in
  let c2 := check_web_requests (snd c1) in
  fst c1 =
    (web_start_requested s || existsb (fun r => match r with ReqStart => true | ReqStop => false end) reqs,
     web_stop_requested s || existsb (fun r => match r with ReqStop => true | ReqStart => false end) reqs)
  /\ fst c2 = (false, false)
  /\ get_state (snd c2) = get_state s
  /\ tts_queue (snd c2) = tts_queue s.
Proof.
  destruct (control_flags reqs s) as (H1 & H2 & H3 & H4).
  cbn. rewrite H1, H2. repeat split.
  - exact H3.
  - exact H4.
Qed.

(** Every answer of [send_message]. *)
Lemma send_message_cases (get_json : outcome json) (s : SharedState) :
  (exists r, Web.send_message get_json s = (Ret r, s) /\ success r = false)
  \/ (exists m, Serve.accepted m
                /\ Web.send_message get_json s =
                   (Ret resp_queued, add_tts_message m s)).
Proof.
  unfold Web.send_message, Web.send_message_body. st_unfold.
  destruct get_json as [data|e]; [|left; eexists; split; reflexivity].
  destruct (Web.get data "message" (JStr "")) as [raw|e];
    [|left; eexists; split; reflexivity].
  destruct (Web.strip_of raw) as [m|e] eqn:Hraw;
    [|left; eexists; split; reflexivity].
  assert (Hstripped : strip m = m).
  { destruct raw; try discriminate. injection Hraw as <-. apply strip_idem. }
  cbn [negb].
  destruct (truthy m) eqn:Ht; cbn [negb];
    [|left; eexists; split; reflexivity].
  destruct (500 <? len m)%Z eqn:Hl; [left; eexists; split; reflexivity|].
  right. exists m. split; [|reflexivity].
  split; [exact Hstripped|]. split.
  - now apply truthy_true_iff.
  - now apply Z.ltb_ge.
Qed.

Lemma add_tts_message_accepted (m : string) (s : SharedState) :
  Serve.accepted m ->
  add_tts_message m s =
  match tts_engine s with
  | Some _ => set_tts_queue (tts_queue s ++ [m]) s
  | None => s
  end.
Proof.
  intros (Hs & Hne & _). rewrite <- Hs. apply add_tts_message_stripped.
  now rewrite Hs.
Qed.

(** X20. [send_message] answers every request, whatever the body (missing,
    not a dictionary, no message, a message that is not a string): nothing
    escapes its handler. An answer with [success=false] leaves the shared
    state as it was; an answer with [success=true] changes at most the
    speech queue, by appending one message. *)
Theorem send_message_total (get_json : outcome json) (s : SharedState) :
  exists r,
    fst (Web.send_message get_json s) = Ret r
    /\ (success r = false -> snd (Web.send_message get_json s) = s)
    /\ (success r = true ->
        exists added,
          snd (Web.send_message get_json s) =
            set_tts_queue (tts_queue s ++ added) s
          /\ (List.length added <= 1)%nat).
Proof.
  destruct (send_message_cases get_json s) as [(r & -> & Hr) | (m & Hm & ->)].
  - exists r. cbn [fst snd]. split; [reflexivity|]. split; [reflexivity|].
    rewrite Hr. discriminate.
  - exists resp_queued. cbn [fst snd]. split; [reflexivity|].
    split; [discriminate|]. intros _.
    rewrite (add_tts_message_accepted m s Hm).
    destruct (tts_engine s) eqn:He.
    + exists [m]. split; [reflexivity | simpl; lia].
    + exists []. rewrite app_nil_r. split; [|simpl; lia].
      destruct s. reflexivity.
Qed.

Lemma send_message_queue (get_json : outcome json) (s : SharedState) :
  tts_engine (snd (Web.send_message get_json s)) = tts_engine s
  /\ (tts_queue (snd (Web.send_message get_json s)) = tts_queue s
      \/ exists m, Serve.accepted m /\ tts_engine s <> None
                   /\ tts_queue (snd (Web.send_message get_json s)) =
                      tts_queue s ++ [m]).
Proof.
  destruct (send_message_cases get_json s) as [(r & -> & Hr) | (m & Hm & ->)].
  - cbn [snd]. auto.
  - cbn [snd]. rewrite (add_tts_message_accepted m s Hm).
    destruct (tts_engine s) eqn:He.
    + split; [exact He|]. right. exists m.
      split; [exact Hm|]. split; [discriminate | reflexivity].
    + rewrite He. auto.
Qed.

(** X21. Only validated text reaches the speech queue: if every queued
    message is trimmed, not empty and at most 500 characters long, this still
    holds after any sequence of [send_message] requests, and the messages
    that were queued before stay in front, in their order. *)
Theorem send_message_keeps_queue_valid (bodies : list (outcome json))
  (s : SharedState) :
  Forall Serve.accepted (tts_queue s) ->
  Forall Serve.accepted (tts_queue (Serve.messages bodies s))
  /\ exists added, tts_queue (Serve.messages bodies s) = tts_queue s ++ added.
Proof.
  unfold Serve.messages. revert s.
  induction bodies as [|b rest IH]; intros s Hvalid.
  - cbn. split; [exact Hvalid|]. exists []. now rewrite app_nil_r.
  - cbn [fold_left].
    destruct (send_message_queue b s) as [_ [Hq | (m & Hm & _ & Hq)]].
    + destruct (IH (snd (Web.send_message b s))) as [Hv [added Ha]];
        [now rewrite Hq|].
      split; [exact Hv|]. exists added. now rewrite Ha, Hq.
    + destruct (IH (snd (Web.send_message b s))) as [Hv [added Ha]].
      { rewrite Hq. apply Forall_app. split; [exact Hvalid|]. now constructor. }
      split; [exact Hv|]. exists (m :: added).
      now rewrite Ha, Hq, <- app_assoc.
Qed.

Lemma send_message_keeps_queue_valid_witness :
  Forall Serve.accepted
    (tts_queue (Serve.messages [Ret hi_request; Ret (letters_request 501)]
                  state_with_engine)).
Proof.
  apply (proj1 (send_message_keeps_queue_valid
                  [Ret hi_request; Ret (letters_request 501)]
                  state_with_engine ltac:(constructor))).
Defined.

(** X22. A missing speech engine cannot fill the queue: when the engine
    failed to start and the queue is empty, the queue is still empty after
    any sequence of [send_message] requests and direct [add_tts_message]
    calls. *)
Theorem no_engine_queue_stays_empty (bodies : list (outcome json))
  (direct : list string) (s : SharedState) :
  tts_engine s = None ->
  tts_queue s = [] ->
  tts_queue (fold_left (fun s' m => add_tts_message m s') direct
               (Serve.messages bodies s)) = [].
Proof.
  intros He Hq.
  assert (Hserve : tts_engine (Serve.messages bodies s) = None
                   /\ tts_queue (Serve.messages bodies s) = []).
  { unfold Serve.messages. revert s He Hq.
    induction bodies as [|b rest IH]; intros s He Hq; [auto|].
    cbn [fold_left].
    destruct (send_message_queue b s) as [He' [Hq' | (m & _ & Hne & _)]].
    - apply IH; congruence.
    - congruence. }
  destruct Hserve as [He' Hq'].
  revert He' Hq'. generalize (Serve.messages bodies s) as s0.
  induction direct as [|m rest IH]; intros s0 He' Hq'; [exact Hq'|].
  cbn [fold_left]. unfold add_tts_message at 2. rewrite He'. now apply IH.
Qed.

Lemma no_engine_queue_stays_empty_witness :
  tts_queue (fold_left (fun s' m => add_tts_message m s') ["hello"]
               (Serve.messages [Ret hi_request] state_without_engine)) = [].
Proof.
  exact (no_engine_queue_stays_empty [Ret hi_request] ["hello"]
           state_without_engine eq_refl eq_refl).
Defined.

(** ** Speech worker *)

Lemma spoken_app (a b : list tts_event) :
  TTSWorker.spoken (a ++ b) = TTSWorker.spoken a ++ TTSWorker.spoken b.
Proof. unfold TTSWorker.spoken. apply flat_map_app. Qed.

(** What one iteration does, by the state of the queue when [get] returns. *)
Lemma tts_body_cases (env : tts_env) (w : WorkerState) :
  exists w',
    TTSWorker.body env w = (Ret tt, w')
    /\ w_stop_event w' = w_stop_event w
    /\ tts_engine (w_shared w') = tts_engine (w_shared w)
    /\ match tts_queue (w_shared w) ++ arrivals env with
       | [] => tts_queue (w_shared w') = [] /\ w_trace w' = w_trace w
       | m :: rest =>
           tts_queue (w_shared w') = rest
           /\ match tts_engine (w_shared w), speech env with
              | None, _ => w_trace w' = w_trace w
              | Some _, Ret _ =>
                  w_trace w' =
                  w_trace w ++ [TtsPrint (String.append "Speaking: " m); TtsSay m]
              | Some _, Raise e =>
                  TTSWorker.spoken (w_trace w') = TTSWorker.spoken (w_trace w)
                  /\ (exn_class e <> "queue.Empty" ->
                      w_trace w' =
                      w_trace w ++
                        [TtsPrint (String.append "Speaking: " m);
                         TtsPrint (String.append "TTS error: " (exn_str e))])
              end
       end.
Proof.
  destruct w as [sh stop tr].
  unfold TTSWorker.body, TTSWorker.queue_get, TTSWorker.arrive, TTSWorker.say,
    TTSWorker.emit. st_unfold.
  cbn [w_shared w_stop_event w_trace TTSWorker.set_shared tts_queue
       set_tts_queue tts_engine].
  destruct (tts_queue sh ++ arrivals env) as [|m rest] eqn:Hq.
  - cbn. eexists. split; [reflexivity|]. cbn. auto.
  - cbn [w_shared w_stop_event w_trace TTSWorker.set_shared tts_queue
         set_tts_queue tts_engine].
    destruct (tts_engine sh) as [eng|] eqn:He.
    + destruct (speech env) as [[]|e] eqn:Hsp.
      * cbn. eexists. split; [reflexivity|]. cbn.
        rewrite <- app_assoc. auto.
      * cbn. destruct (String.eqb_spec (exn_class e) "queue.Empty") as [Hc|Hc].
        -- eexists. split; [reflexivity|]. cbn.
           split; [reflexivity|]. split; [exact He|]. split; [reflexivity|].
           split.
           ++ unfold TTSWorker.spoken. rewrite flat_map_app. cbn.
              now rewrite app_nil_r.
           ++ intros Hn. contradiction.
        -- eexists. split; [reflexivity|]. cbn.
           split; [reflexivity|]. split; [exact He|]. split; [reflexivity|].
           split.
           ++ unfold TTSWorker.spoken. rewrite !flat_map_app. cbn.
              now rewrite !app_nil_r.
           ++ intros _. now rewrite <- app_assoc.
    + cbn. eexists. split; [reflexivity|]. cbn. auto.
Qed.

Lemma tts_run_step (env : tts_env) (rest : list tts_env) (w : WorkerState) :
  w_stop_event w = false -> tts_stop_set env = false ->
  TTSWorker.run (env :: rest) w =
  match TTSWorker.body env w with
  | (Ret _, w') => TTSWorker.run rest w'
  | (Raise e, w') => (Died e, w')
  end.
Proof.
  intros Hw He. destruct w as [sh stop tr]. simpl in Hw. subst stop.
  cbn [TTSWorker.run]. rewrite He. reflexivity.
Qed.

(** X23. Speech is first in, first out and nothing is lost: with a working
    engine and no stop, after any number of iterations the messages spoken
    so far followed by the messages still queued are exactly the messages
    spoken before, the queue before and the arrivals, in that order. *)
Theorem tts_worker_fifo (envs : list tts_env) (w : WorkerState) :
  w_stop_event w = false ->
  tts_engine (w_shared w) <> None ->
  Forall (fun env => tts_stop_set env = false /\ speech env = Ret tt) envs ->
  fst (TTSWorker.run envs w) = Alive
  /\ TTSWorker.spoken (w_trace (snd (TTSWorker.run envs w)))
     ++ tts_queue (w_shared (snd (TTSWorker.run envs w)))
     = TTSWorker.spoken (w_trace w) ++ tts_queue (w_shared w)
       ++ List.concat (map arrivals envs).
Proof.
  intros Hstop Heng Hall. revert w Hstop Heng.
  induction Hall as [|env rest [Hs Hsp] _ IH]; intros w Hstop Heng.
  - cbn. now rewrite app_nil_r.
  - rewrite tts_run_step by assumption.
    destruct (tts_body_cases env w) as (w' & -> & Hst & He & Hq).
    destruct (IH w') as [Halive Heq]; [congruence.. |].
    split; [exact Halive|]. rewrite Heq. cbn [map List.concat].
    destruct (tts_queue (w_shared w) ++ arrivals env) as [|m q] eqn:Hqueue.
    + destruct Hq as [-> ->]. cbn [app].
      rewrite (app_assoc (tts_queue (w_shared w))), Hqueue. reflexivity.
    + destruct Hq as [-> Htr].
      destruct (tts_engine (w_shared w)) as [eng|]; [|congruence].
      rewrite Hsp in Htr. rewrite Htr, spoken_app. cbn [TTSWorker.spoken flat_map app].
      rewrite (app_assoc (tts_queue (w_shared w))), Hqueue.
      rewrite <- !app_assoc. reflexivity.
Qed.

Lemma tts_worker_fifo_witness :
  TTSWorker.spoken
    (w_trace (snd (TTSWorker.run
       [ {| tts_stop_set := false; arrivals := ["one"; "two"]; speech := Ret tt |};
         {| tts_stop_set := false; arrivals := ["three"]; speech := Ret tt |} ]
       (TTSWorker.new state_with_engine))))
  ++ tts_queue (w_shared (snd (TTSWorker.run
       [ {| tts_stop_set := false; arrivals := ["one"; "two"]; speech := Ret tt |};
         {| tts_stop_set := false; arrivals := ["three"]; speech := Ret tt |} ]
       (TTSWorker.new state_with_engine))))
  = ["one"; "two"; "three"].
Proof.
  apply (proj2 (tts_worker_fifo
    [ {| tts_stop_set := false; arrivals := ["one"; "two"]; speech := Ret tt |};
      {| tts_stop_set := false; arrivals := ["three"]; speech := Ret tt |} ]
    (TTSWorker.new state_with_engine) eq_refl ltac:(discriminate)
    ltac:(repeat constructor))).
Defined.

(** X24. The worker survives every failure: whatever [say] and
    [runAndWait] raise, and with or without an engine, [run] never ends with
    an exception. A message whose speech raises is dropped, not retried: it
    is off the queue, nothing was spoken, and the worker goes on. *)
Theorem tts_worker_survives (env : tts_env) (w : WorkerState)
  (m : string) (rest : list string) (e : exn) :
  w_stop_event w = false ->
  tts_stop_set env = false ->
  tts_queue (w_shared w) ++ arrivals env = m :: rest ->
  speech env = Raise e ->
  (forall envs w0 e0, fst (TTSWorker.run envs w0) <> Died e0)
  /\ fst (TTSWorker.run [env] w) = Alive
  /\ tts_queue (w_shared (snd (TTSWorker.run [env] w))) = rest
  /\ TTSWorker.spoken (w_trace (snd (TTSWorker.run [env] w))) =
     TTSWorker.spoken (w_trace w).
Proof.
  intros Hstop Hs Hq Hsp. split.
  - intros envs. induction envs as [|env0 rest0 IH]; intros w0 e0;
      [discriminate|].
    cbn [TTSWorker.run].
    set (w1 := TTSWorker.set_stop_event (w_stop_event w0 || tts_stop_set env0) w0).
    destruct (w_stop_event w1); [discriminate|].
    destruct (tts_body_cases env0 w1) as (w' & -> & _).
    apply IH.
  - rewrite tts_run_step by assumption.
    destruct (tts_body_cases env w) as (w' & -> & _ & _ & Hcase).
    rewrite Hq, Hsp in Hcase. destruct Hcase as [Hrest Htr].
    cbn [TTSWorker.run fst snd]. split; [reflexivity|]. split; [exact Hrest|].
    destruct (tts_engine (w_shared w)); [apply Htr | now rewrite Htr].
Qed.

Lemma tts_worker_survives_witness :
  tts_queue (w_shared (snd (TTSWorker.run
    [ {| tts_stop_set := false; arrivals := ["one"; "two"];
         speech := Raise device_lost |} ]
    (TTSWorker.new state_with_engine)))) = ["two"].
Proof.
  apply (proj1 (proj2 (proj2 (tts_worker_survives
    {| tts_stop_set := false; arrivals := ["one"; "two"];
       speech := Raise device_lost |}
    (TTSWorker.new state_with_engine) "one" ["two"] device_lost
    eq_refl eq_refl eq_refl eq_refl)))).
Defined.

(** ** Level meter *)

(** X25. On a meter with at least one bar and [db_min < db_max], [db_to_x]
    stays between the first and the last bar position and never decreases
    when the level rises. *)
Theorem db_to_x_monotone (self : VUMeter.t) (a b : R) :
  VUMeter.db_min self < VUMeter.db_max self ->
  (1 <= VUMeter.num_bars self)%Z ->
  (0 <= VUMeter.bar_width self + VUMeter.bar_spacing self)%Z ->
  a <= b ->
  20 <= VUMeter.db_to_x self a
  /\ VUMeter.db_to_x self a <= VUMeter.db_to_x self b
  /\ VUMeter.db_to_x self b <=
     IZR (20 + (VUMeter.num_bars self - 1)
               * (VUMeter.bar_width self + VUMeter.bar_spacing self)).
Proof.
  intros Hrange Hbars Hw Hab.
  unfold VUMeter.db_to_x.
  rewrite plus_IZR, mult_IZR.
  assert (Hn : 0 <= IZR (VUMeter.num_bars self - 1)) by (apply IZR_le; lia).
  assert (Hp : 0 <= IZR (VUMeter.bar_width self + VUMeter.bar_spacing self))
    by (apply IZR_le; lia).
  set (n := IZR (VUMeter.num_bars self - 1)) in *.
  set (p := IZR (VUMeter.bar_width self + VUMeter.bar_spacing self)) in *.
  set (lo := VUMeter.db_min self) in *.
  set (hi := VUMeter.db_max self) in *.
  assert (Hnp : 0 <= n * p) by now apply Rmult_le_pos.
  assert (Hratio : forall db, lo < db -> db < hi ->
            0 <= (db - lo) / (hi - lo) * n * p <= n * p).
  { intros db H1 H2.
    assert (Hr : 0 <= (db - lo) / (hi - lo) <= 1).
    { split.
      - apply Rmult_le_pos; [lra|]. left. apply Rinv_0_lt_compat. lra.
      - apply Rmult_le_reg_r with (hi - lo); [lra|].
        unfold Rdiv. rewrite Rmult_assoc, Rinv_l by lra. lra. }
    rewrite Rmult_assoc. split; [apply Rmult_le_pos; lra|].
    rewrite <- (Rmult_1_l (n * p)) at 2.
    apply Rmult_le_compat_r; lra. }
  assert (Hmono : forall x y, lo < x -> x <= y -> y < hi ->
            (x - lo) / (hi - lo) * n * p <= (y - lo) / (hi - lo) * n * p).
  { intros x y H1 H2 H3. rewrite !(Rmult_assoc _ n p).
    apply Rmult_le_compat_r; [exact Hnp|].
    apply Rmult_le_compat_r; [left; apply Rinv_0_lt_compat; lra | lra]. }
  destruct (Rle_dec a lo) as [Ha|Ha]; destruct (Rle_dec b lo) as [Hb|Hb];
    try (destruct (Rge_dec a hi) as [Ha'|Ha']);
    try (destruct (Rge_dec b hi) as [Hb'|Hb']);
    repeat match goal with
           | H : ~ _ <= _ |- _ => apply Rnot_le_lt in H
           | H : ~ _ >= _ |- _ => apply Rnot_ge_lt in H
           end;
    try lra;
    try (pose proof (Hratio a ltac:(lra) ltac:(lra)));
    try (pose proof (Hratio b ltac:(lra) ltac:(lra)));
    try (pose proof (Hmono a b ltac:(lra) ltac:(lra) ltac:(lra)));
    lra.
Qed.

Lemma db_to_x_monotone_witness :
  VUMeter.db_to_x (VUMeter.init 650 60) (-45)
  <= VUMeter.db_to_x (VUMeter.init 650 60) (-12).
Proof.
  apply (proj1 (proj2 (db_to_x_monotone (VUMeter.init 650 60) (-45) (-12)
                         ltac:(unfold VUMeter.init, VUMeter.db_min, VUMeter.db_max; lra)
                         ltac:(vm_compute; discriminate)
                         ltac:(vm_compute; discriminate)
                         ltac:(lra)))).
Defined.

(** X26. After [update_level] the peak marker is never below the level just
    shown and never above the larger of the old peak and that level; it
    falls by at most 0.5 dB per update, and not at all during the second
    after it was last raised; the geometry of the meter is unchanged. *)
Theorem update_level_peak (now db threshold : R) (self : VUMeter.t) :
  let self' := VUMeter.update_level now db threshold self in
  VUMeter.current_db self' = db
  /\ VUMeter.threshold_db self' = threshold
  /\ db <= VUMeter.peak_db self'
  /\ VUMeter.peak_db self' <= Rmax (VUMeter.peak_db self) db
  /\ VUMeter.peak_db self - 1 / 2 <= VUMeter.peak_db self'
  /\ (db <= VUMeter.peak_db self -> now - VUMeter.peak_hold_time self <= 1 ->
      VUMeter.peak_db self' = VUMeter.peak_db self
      /\ VUMeter.peak_hold_time self' = VUMeter.peak_hold_time self)
  /\ VUMeter.num_bars self' = VUMeter.num_bars self
  /\ VUMeter.db_min self' = VUMeter.db_min self
  /\ VUMeter.db_max self' = VUMeter.db_max self.
Proof.
  cbv zeta. unfold VUMeter.update_level.
  cbn [VUMeter.current_db VUMeter.threshold_db VUMeter.peak_db
       VUMeter.peak_hold_time VUMeter.num_bars VUMeter.db_min VUMeter.db_max].
  rewrite half_literal. unfold Py.max, Rmax.
  destruct (Rlt_dec (VUMeter.peak_db self) db) as [Hup|Hdown];
    [|destruct (Rlt_dec 1 (now - VUMeter.peak_hold_time self)) as [Hold|Hhold];
      [destruct (Rlt_dec (VUMeter.peak_db self - 1 / 2) db)|]];
    cbn [fst snd]; destruct (Rle_dec (VUMeter.peak_db self) db);
    repeat split; try reflexivity; try lra; intros; try lra.
Qed.

(** ** Audio devices *)

(** The devices of kind [kind] that can be listed. *)
Lemma entry_spec (pa : PyAudio) (kind : string) (i j : Z) (name : string) :
  In (j, name) (Devices.entry pa kind i) <->
  j = i
  /\ exists info api,
       get_device_info_by_index pa i = Ret info
       /\ get_host_api_info_by_index pa (hostApi info) = Ret api
       /\ name = Devices.device_name info api
       /\ ((kind = "input" /\ (0 < maxInputChannels info)%Z)
           \/ (kind = "output" /\ (0 < maxOutputChannels info)%Z)).
Proof.
  unfold Devices.entry, try_except, Py.bind.
  destruct (get_device_info_by_index pa i) as [info|e].
  2: { split; [intros [] | intros (_ & info & api & H & _); discriminate]. }
  destruct (String.eqb_spec kind "input") as [Hin|Hin];
    destruct (0 <? maxInputChannels info)%Z eqn:Hci; cbn [andb].
  - destruct (get_host_api_info_by_index pa (hostApi info)) as [api|e] eqn:Hapi.
    + split.
      * intros [H|[]]. injection H as <- <-. split; [reflexivity|].
        exists info, api. apply Z.ltb_lt in Hci. auto 6.
      * intros (-> & info' & api' & [= <-] & Hapi' & -> & _).
        rewrite Hapi in Hapi'. injection Hapi' as <-. now left.
    + split; [intros []|].
      intros (_ & info' & api' & [= <-] & Hapi' & _). congruence.
  - subst kind. cbn. split; [intros []|].
    intros (_ & info' & api' & [= <-] & _ & _ & [[_ H] | [H _]]).
    + apply Z.ltb_ge in Hci. lia.
    + discriminate.
  - destruct (String.eqb_spec kind "output") as [Hout|Hout];
      destruct (0 <? maxOutputChannels info)%Z eqn:Hco; cbn [andb].
    + destruct (get_host_api_info_by_index pa (hostApi info)) as [api|e] eqn:Hapi.
      * split.
        -- intros [H|[]]. injection H as <- <-. split; [reflexivity|].
           exists info, api. apply Z.ltb_lt in Hco. auto 6.
        -- intros (-> & info' & api' & [= <-] & Hapi' & -> & _).
           rewrite Hapi in Hapi'. injection Hapi' as <-. now left.
      * split; [intros []|].
        intros (_ & info' & api' & [= <-] & Hapi' & _). congruence.
    + split; [intros []|].
      intros (_ & info' & api' & [= <-] & _ & _ & [[H _] | [_ H]]);
        [contradiction | apply Z.ltb_ge in Hco; lia].
    + split; [intros []|].
      intros (_ & info' & api' & [= <-] & _ & _ & [[H _] | [H _]]); contradiction.
    + split; [intros []|].
      intros (_ & info' & api' & [= <-] & _ & _ & [[H _] | [H _]]); contradiction.
  - destruct (String.eqb_spec kind "output") as [Hout|Hout];
      destruct (0 <? maxOutputChannels info)%Z eqn:Hco; cbn [andb].
    + destruct (get_host_api_info_by_index pa (hostApi info)) as [api|e] eqn:Hapi.
      * split.
        -- intros [H|[]]. injection H as <- <-. split; [reflexivity|].
           exists info, api. apply Z.ltb_lt in Hco. auto 6.
        -- intros (-> & info' & api' & [= <-] & Hapi' & -> & _).
           rewrite Hapi in Hapi'. injection Hapi' as <-. now left.
      * split; [intros []|].
        intros (_ & info' & api' & [= <-] & Hapi' & _). congruence.
    + split; [intros []|].
      intros (_ & info' & api' & [= <-] & _ & _ & [[H _] | [_ H]]);
        [contradiction | apply Z.ltb_ge in Hco; lia].
    + split; [intros []|].
      intros (_ & info' & api' & [= <-] & _ & _ & [[H _] | [H _]]); contradiction.
    + split; [intros []|].
      intros (_ & info' & api' & [= <-] & _ & _ & [[H _] | [H _]]); contradiction.
Qed.

Lemma in_range_iff (n i : Z) : In i (range n) <-> (0 <= i < n)%Z.
Proof.
  unfold range. rewrite in_map_iff. split.
  - intros (k & <- & Hk). apply in_seq in Hk. lia.
  - intros H. exists (Z.to_nat i). split; [lia|]. apply in_seq. lia.
Qed.

Lemma entry_short (pa : PyAudio) (kind : string) (i : Z) :
  Devices.entry pa kind i = []
  \/ exists name, Devices.entry pa kind i = [(i, name)].
Proof.
  unfold Devices.entry, try_except, Py.bind.
  destruct (get_device_info_by_index pa i) as [info|e]; [|now left].
  destruct (String.eqb kind "input" && (0 <? maxInputChannels info)%Z).
  - destruct (get_host_api_info_by_index pa (hostApi info)); [right|left]; eauto.
  - destruct (String.eqb kind "output" && (0 <? maxOutputChannels info)%Z);
      [|now left].
    destruct (get_host_api_info_by_index pa (hostApi info)); [right|left]; eauto.
Qed.

Lemma listed_sorted (pa : PyAudio) (kind : string) (k a : nat) :
  StronglySorted Z.lt
    (map fst (flat_map (Devices.entry pa kind) (map Z.of_nat (seq a k)))).
Proof.
  revert a. induction k as [|k IH]; intros a; [constructor|].
  cbn [seq map flat_map]. rewrite map_app.
  assert (Hrest : Forall (fun j => (Z.of_nat a < j)%Z)
            (map fst (flat_map (Devices.entry pa kind)
                        (map Z.of_nat (seq (S a) k))))).
  { apply Forall_forall. intros j Hj. apply in_map_iff in Hj.
    destruct Hj as ([j' name] & <- & Hj). apply in_flat_map in Hj.
    destruct Hj as (i & Hi & Hj). apply entry_spec in Hj as [-> _].
    apply in_map_iff in Hi. destruct Hi as (n & <- & Hn).
    apply in_seq in Hn. cbn. lia. }
  destruct (entry_short pa kind (Z.of_nat a)) as [-> | [name ->]]; cbn [map app fst].
  - apply IH.
  - constructor; [apply IH | exact Hrest].
Qed.

(** X27. [list_audio_devices] lists exactly the devices it can describe:
    a pair [(i, name)] is in the result exactly when [i] is below the device
    count, the device's information and its host API can be read, the name
    is "device (api)" and the device has channels of the requested kind.
    Devices whose queries raise are skipped, the indices come out strictly
    increasing, and a kind other than "input" and "output" lists nothing. *)
Theorem list_audio_devices_spec (pa : PyAudio) (kind : string) (n : Z) :
  get_device_count pa = Ret n ->
  exists l,
    Devices.list_audio_devices pa kind = Ret l
    /\ (forall i name,
          In (i, name) l <->
          (0 <= i < n)%Z
          /\ exists info api,
               get_device_info_by_index pa i = Ret info
               /\ get_host_api_info_by_index pa (hostApi info) = Ret api
               /\ name = Devices.device_name info api
               /\ ((kind = "input" /\ (0 < maxInputChannels info)%Z)
                   \/ (kind = "output" /\ (0 < maxOutputChannels info)%Z)))
    /\ StronglySorted Z.lt (map fst l)
    /\ (kind <> "input" -> kind <> "output" -> l = []).
Proof.
  intros Hn. unfold Devices.list_audio_devices. rewrite Hn. cbn [Py.bind].
  eexists. split; [reflexivity|]. split; [|split].
  - intros i name. rewrite in_flat_map. split.
    + intros (j & Hj & Hin). apply entry_spec in Hin as [-> Hin].
      apply in_range_iff in Hj. auto.
    + intros [Hi Hin]. exists i. split; [now apply in_range_iff|].
      apply entry_spec. auto.
  - apply listed_sorted.
  - intros H1 H2.
    destruct (flat_map (Devices.entry pa kind) (range n)) as [|[i name] l] eqn:E;
      [reflexivity|].
    assert (Hin : In (i, name) (flat_map (Devices.entry pa kind) (range n)))
      by (rewrite E; now left).
    apply in_flat_map in Hin. destruct Hin as (j & _ & Hin).
    apply entry_spec in Hin as (_ & info & api & _ & _ & _ & [[H _] | [H _]]);
      contradiction.
Qed.

Lemma list_audio_devices_spec_witness :
  exists l,
    Devices.list_audio_devices sample_card "input" = Ret l
    /\ StronglySorted Z.lt (map fst l).
Proof.
  destruct (list_audio_devices_spec sample_card "input" 3 eq_refl)
    as (l & Hl & _ & Hs & _).
  exists l. split; assumption.
Defined.

(** The listing of the sample card, computed. *)
Lemma sample_card_inputs :
  Devices.list_audio_devices sample_card "input" = Ret [(0%Z, "Mic (ALSA)")]
  /\ Devices.list_audio_devices sample_card "output" = Ret [(2%Z, "Speakers (ALSA)")].
Proof. split; reflexivity. Qed.

(** ** Device names and the device the monitor records from *)

Lemma dict_get_set (V : Type) (d : list (string * V)) (k k' : string) (v : V) :
  Devices.dict_get (Devices.dict_set d k v) k' =
  if String.eqb k k' then Some v else Devices.dict_get d k'.
Proof.
  induction d as [|[k0 v0] d IH]; cbn.
  - reflexivity.
  - destruct (String.eqb_spec k0 k) as [->|Hne]; cbn.
    + destruct (String.eqb_spec k k'); reflexivity.
    + rewrite IH. destruct (String.eqb_spec k0 k') as [->|Hne'].
      * destruct (String.eqb_spec k k'); [congruence | reflexivity].
      * reflexivity.
Qed.

Lemma map_name_to_idx_get (dev_list : list (Z * string))
  (d : list (string * Z)) (name : string) (i : Z) :
  Devices.dict_get
    (fold_left (fun d' e => Devices.dict_set d' (snd e) (fst e)) dev_list d) name
  = Some i ->
  In (i, name) dev_list \/ Devices.dict_get d name = Some i.
Proof.
  revert d. induction dev_list as [|[j n] l IH]; intros d H; [now right|].
  cbn [fold_left] in H. apply IH in H. destruct H as [H|H]; [left; now right|].
  cbn [fst snd] in H. rewrite dict_get_set in H.
  destruct (String.eqb_spec n name) as [->|Hne].
  - injection H as ->. left. now left.
  - now right.
Qed.

Lemma map_name_to_idx_known (dev_list : list (Z * string))
  (d : list (string * Z)) (name : string) :
  (exists i, In (i, name) dev_list) \/ (exists i, Devices.dict_get d name = Some i) ->
  exists j,
    Devices.dict_get
      (fold_left (fun d' e => Devices.dict_set d' (snd e) (fst e)) dev_list d) name
    = Some j.
Proof.
  revert d. induction dev_list as [|[j n] l IH]; intros d H.
  - destruct H as [[i []] | H]; exact H.
  - cbn [fold_left]. apply IH. cbn [fst snd].
    destruct H as [[i [Hin|Hin]] | [i Hd]].
    + injection Hin as -> ->. right. exists i.
      rewrite dict_get_set, String.eqb_refl. reflexivity.
    + left. eauto.
    + right. rewrite dict_get_set.
      destruct (String.eqb n name); eauto.
Qed.

Lemma dict_get_first (V : Type) (d : list (string * V)) (first : string)
  (others : list string) :
  Devices.keys d = first :: others -> exists v, Devices.dict_get d first = Some v.
Proof.
  destruct d as [|[k v] d]; [discriminate|].
  cbn. intros [= -> _]. rewrite String.eqb_refl. eauto.
Qed.

(** X28. The name-to-index dictionary built from a device list maps every
    listed name to the index of a listed device with that name, and nothing
    else; and [push_settings] records from a listed device whenever there is
    one, even when the selected name is unknown, and from device [-1] only
    when the list is empty. *)
Theorem push_settings_device_listed (dev_list : list (Z * string))
  (selected_name : string) :
  let d := Devices.map_name_to_idx dev_list in
  (forall name i, Devices.dict_get d name = Some i -> In (i, name) dev_list)
  /\ (forall i name, In (i, name) dev_list ->
       exists j, Devices.dict_get d name = Some j /\ In (j, name) dev_list)
  /\ (dev_list <> [] ->
      exists name, In (Devices.push_settings_device d selected_name, name) dev_list)
  /\ (dev_list = [] -> Devices.push_settings_device d selected_name = (-1)%Z).
Proof.
  cbv zeta. unfold Devices.map_name_to_idx.
  assert (Hsound : forall name i,
            Devices.dict_get
              (fold_left (fun d' e => Devices.dict_set d' (snd e) (fst e)) dev_list [])
              name = Some i -> In (i, name) dev_list).
  { intros name i H. apply map_name_to_idx_get in H.
    destruct H as [H|H]; [exact H | discriminate]. }
  assert (Hknown : forall i name, In (i, name) dev_list ->
            exists j,
              Devices.dict_get
                (fold_left (fun d' e => Devices.dict_set d' (snd e) (fst e)) dev_list [])
                name = Some j /\ In (j, name) dev_list).
  { intros i name Hin.
    destruct (map_name_to_idx_known dev_list [] name) as [j Hj]; [left; eauto|].
    exists j. split; [exact Hj | now apply Hsound]. }
  split; [exact Hsound|]. split; [exact Hknown|]. split.
  - intros Hne. unfold Devices.push_settings_device.
    set (d := fold_left _ dev_list []) in *.
    destruct (Devices.keys d) as [|first others] eqn:Hk.
    + destruct dev_list as [|[i name] l]; [congruence|].
      destruct (Hknown i name ltac:(now left)) as (j & Hj & _).
      destruct d as [|[k v] d']; [discriminate Hj | discriminate Hk].
    + destruct (dict_get_first _ d first others Hk) as [v Hv].
      destruct (Devices.dict_get d selected_name) as [i|] eqn:Hsel.
      * destruct (i =? -1)%Z.
        -- rewrite Hv. exists first. now apply Hsound.
        -- exists selected_name. now apply Hsound.
      * cbn. rewrite Hv. exists first. now apply Hsound.
  - intros ->. reflexivity.
Qed.

Lemma push_settings_device_listed_witness :
  exists name,
    In (Devices.push_settings_device
          (Devices.map_name_to_idx [(0%Z, "Mic (ALSA)"); (3%Z, "USB (ALSA)")])
          "No input devices found", name)
       [(0%Z, "Mic (ALSA)"); (3%Z, "USB (ALSA)")].
Proof.
  apply (proj1 (proj2 (proj2 (push_settings_device_listed
                  [(0%Z, "Mic (ALSA)"); (3%Z, "USB (ALSA)")]
                  "No input devices found")))).
  discriminate.
Defined.

(** ** Calibration: every outcome *)

(** X29. [calibrate] returns normally on every input and shows exactly one
    dialog. Unless a device is selected, the recording succeeds and the
    buffer holds a signal, that dialog is an error, and the shared state and
    the threshold slider are as before. *)
Theorem calibrate_total (device_idx : Z) (captured : outcome (list R)) (a : App) :
  exists d,
    fst (Calibration.calibrate device_idx captured a) = Ret tt
    /\ dialogs (snd (Calibration.calibrate device_idx captured a)) =
       dialogs a ++ [d]
    /\ (device_idx = (-1)%Z
        \/ (exists e, captured = Raise e)
        \/ (exists rec_flat, captured = Ret rec_flat
                             /\ (rec_flat = [] \/ Forall (fun r => r = 0) rec_flat)) ->
        (exists text, d = ShowError "Calibration Error" text)
        /\ shared (snd (Calibration.calibrate device_idx captured a)) = shared a
        /\ th_var (snd (Calibration.calibrate device_idx captured a)) = th_var a).
Proof.
  unfold Calibration.calibrate.
  destruct (Z.eqb_spec device_idx (-1)) as [Hdev|Hdev].
  - eexists. cbn. split; [reflexivity|]. split; [reflexivity|]. eauto.
  - st_unfold. destruct captured as [rec_flat|e].
    + cbn -[Calibration.no_signal Calibration.ambient_level Calibration.suggested].
      destruct (Calibration.no_signal rec_flat) eqn:Hsig.
      * eexists. cbn. split; [reflexivity|]. split; [reflexivity|]. eauto.
      * assert (Hne : rec_flat <> []).
        { intros ->. discriminate Hsig. }
        destruct (ambient_level_returns rec_flat Hne) as [ambient Hamb].
        rewrite Hamb.
        cbn -[Calibration.suggested Calibration.scale_value].
        eexists. split; [reflexivity|]. split; [reflexivity|].
        intros [H | [[e H] | (r & [= <-] & H)]]; [contradiction | discriminate |].
        apply no_signal_true_iff in H. congruence.
    + cbn. eexists. split; [reflexivity|]. split; [reflexivity|]. eauto.
Qed.

Lemma round_half_even_le (y : R) (n : Z) :
  y <= IZR n -> (round_half_even y <= n)%Z.
Proof.
  intros Hy. unfold round_half_even.
  pose proof (Int_part_bounds y) as [Hlo Hhi].
  assert (Hf : (Int_part y <= n)%Z) by (apply le_IZR; lra).
  destruct (Rlt_dec (y - IZR (Int_part y)) (1 / 2)) as [_|Hd]; [exact Hf|].
  assert (Hlt : (Int_part y < n)%Z).
  { apply lt_IZR. lra. }
  destruct (Rlt_dec (1 / 2) (y - IZR (Int_part y))); [lia|].
  destruct (Z.even (Int_part y)); lia.
Qed.

Lemma round_half_even_ge (y : R) (n : Z) :
  IZR n <= y -> (n <= round_half_even y)%Z.
Proof.
  intros Hy. unfold round_half_even.
  pose proof (Int_part_bounds y) as [Hlo Hhi].
  assert (Hf : (n <= Int_part y)%Z).
  { assert (H : (n < Int_part y + 1)%Z) by (apply lt_IZR; rewrite plus_IZR; lra).
    lia. }
  destruct (Rlt_dec (y - IZR (Int_part y)) (1 / 2)); [exact Hf|].
  destruct (Rlt_dec (1 / 2) (y - IZR (Int_part y))); [lia|].
  destruct (Z.even (Int_part y)); lia.
Qed.

(** [round(x, 1)] keeps a value between two bounds that are multiples of
    0.1. *)
Lemma round1_between (x : R) (lo hi : Z) :
  IZR lo / 10 <= x <= IZR hi / 10 -> IZR lo / 10 <= round1 x <= IZR hi / 10.
Proof.
  intros [Hlo Hhi]. unfold round1.
  assert (H1 : (lo <= round_half_even (x * 10))%Z)
    by (apply round_half_even_ge; lra).
  assert (H2 : (round_half_even (x * 10) <= hi)%Z)
    by (apply round_half_even_le; lra).
  apply IZR_le in H1, H2. lra.
Qed.

(** X30. For every non-empty buffer the ambient level is computed without
    an exception and lies between -200 dB and 0 dB, and the suggested
    threshold lies between -50 dB and 10 dB. *)
Theorem calibration_bounds (rec_flat : list R) :
  rec_flat <> [] ->
  exists ambient,
    Calibration.ambient_level rec_flat = Ret ambient
    /\ -200 <= ambient <= 0
    /\ -50 <= Calibration.suggested ambient <= 10.
Proof.
  intros Hne. destruct (rms_unit rec_flat Hne) as (m & Hm & Hs & Hr).
  assert (Hamb : exists ambient,
            Calibration.ambient_level rec_flat = Ret ambient
            /\ -200 <= ambient <= 0).
  { unfold Calibration.ambient_level. rewrite Hm. cbn [Py.bind].
    rewrite Hs. cbn [Py.bind].
    destruct (Rlt_dec (R_sqrt.sqrt m) 1e-10) as [Hlow|Hhigh]; cbn [Py.bind isfinite].
    - eexists. split; [reflexivity | lra].
    - apply Rnot_lt_le in Hhigh. pose proof epsilon_pos as He.
      unfold log10. destruct (Rlt_dec 0 (R_sqrt.sqrt m)); [|lra].
      cbn [Py.bind]. eexists. split; [reflexivity|].
      pose proof ln_10_pos as H10.
      assert (Hl1 : ln 1e-10 <= ln (R_sqrt.sqrt m)) by (apply ln_le_compat; lra).
      assert (Hl2 : ln (R_sqrt.sqrt m) <= ln 1) by (apply ln_le_compat; lra).
      rewrite ln_epsilon in Hl1. rewrite ln_1 in Hl2.
      assert (Hq : -10 <= ln (R_sqrt.sqrt m) / ln 10 <= 0).
      { split.
        - apply Rmult_le_reg_r with (ln 10); [exact H10|].
          unfold Rdiv. rewrite Rmult_assoc, Rinv_l by lra. lra.
        - apply Rmult_le_reg_r with (ln 10); [exact H10|].
          unfold Rdiv. rewrite Rmult_assoc, Rinv_l by lra. lra. }
      lra. }
  destruct Hamb as (ambient & Hamb & Hb).
  exists ambient. split; [exact Hamb|]. split; [exact Hb|].
  rewrite suggested_value. split; [apply Rmax_r|].
  apply Rmax_lub; [|lra].
  pose proof (round1_between (ambient + 10) (-1900) 100 ltac:(lra)). lra.
Qed.

Lemma calibration_bounds_witness :
  exists ambient,
    Calibration.ambient_level [1 / 2; 0] = Ret ambient
    /\ -200 <= ambient <= 0
    /\ -50 <= Calibration.suggested ambient <= 10.
Proof.
  apply (calibration_bounds [1 / 2; 0]). discriminate.
Defined.

(** ** Monitor loop: a failing alert *)

(** C7. [play_tone] returns normally on every input and every behaviour of
    the output device, and leaves exactly one trace: the tone on the device
    when synthesis and device both work, and otherwise the printed error, of
    the synthesis when that raised and else of the device. In a cycle of a
    running monitor whose loudness [db] is above the threshold and whose
    alert fails with [e], in the synthesis or on the device, that error is
    printed, the stop event stays clear, and the loop goes on with the next
    cycle. *)
Theorem playback_failure_is_not_fatal (env : cycle_env) (rest : list cycle_env)
  (m : MonitorState) (s : Settings) (rec_flat : list R) (db : R) (e : exn) :
  stop_evt m = false ->
  stop_pressed env = false ->
  settings (Monitor.drain (pushed env) m) = Some s ->
  capture env = Ret rec_flat ->
  Monitor.loudness rec_flat = Ret db ->
  thresh s < db ->
  gen_wave (shape s) (freq s) (dur s) (vol s) = Raise e
  \/ ((exists r, gen_wave (shape s) (freq s) (dur s) (vol s) = Ret r)
      /\ playback env = Raise e) ->
  (forall outcome_of_device shape freq ms vol device w,
     play_tone outcome_of_device shape freq ms vol device w =
     (Ret tt,
      w ++ [match gen_wave shape freq ms vol, outcome_of_device with
            | Raise e0, _ =>
                EvPrint (String.append "Error playing tone: " (exn_str e0))
            | Ret _, Raise e0 =>
                EvPrint (String.append "Error playing tone: " (exn_str e0))
            | Ret r, Ret _ => EvPlay device (fst r) (snd r)
            end]))
  /\ exists m',
       m' = {| settings := Some s;
               q_ui := q_ui m ++ [DB db];
               stop_evt := false;
               trace := trace m ++
                 [capture_event s;
                  EvPrint (String.append "Error playing tone: " (exn_str e));
                  EvSleep (delay s)] |}
       /\ Monitor.body env m = (Ret Continue, m')
       /\ Monitor.run (env :: rest) m = Monitor.run rest m'.
Proof.
  intros Hm He Hs Hc Hdb Hloud Hfail. split.
  - intros dev shape0 freq0 ms0 vol0 device0 w. rewrite play_tone_cases.
    destruct (gen_wave shape0 freq0 ms0 vol0); [destruct dev|]; reflexivity.
  - eexists. split; [reflexivity|].
    assert (Hbody : Monitor.body env m =
      (Ret Continue,
       {| settings := Some s;
          q_ui := q_ui m ++ [DB db];
          stop_evt := false;
          trace := trace m ++
            [capture_event s;
             EvPrint (String.append "Error playing tone: " (exn_str e));
             EvSleep (delay s)] |})).
    { rewrite (body_capture_ok env m s rec_flat db Hs Hc Hdb).
      destruct (Rlt_dec (thresh s) db) as [_|Hn]; [|destruct (Hn Hloud)].
      rewrite play_tone_cases, Hm.
      destruct Hfail as [Hgen | [[r Hgen] Hdev]]; rewrite Hgen; [|rewrite Hdev];
        cbn [snd]; rewrite <- !app_assoc; reflexivity. }
    split; [exact Hbody|].
    rewrite run_step by assumption. now rewrite Hbody.
Qed.

Lemma playback_failure_is_not_fatal_witness :
  (exists m',
     Monitor.run [playback_fails; capture_fails] Monitor.new =
     Monitor.run [capture_fails] m'
     /\ stop_evt m' = false
     /\ trace m' =
        [capture_event (settings_at (-300));
         EvPrint "Error playing tone: device unavailable";
         EvSleep (2 / 100)])
  /\ (exists m',
        Monitor.run [synthesis_fails; capture_fails] Monitor.new =
        Monitor.run [capture_fails] m'
        /\ stop_evt m' = false
        /\ trace m' =
           [capture_event loud_square_settings;
            EvPrint (String.append "Error playing tone: " (exn_str StructError));
            EvSleep (2 / 100)]).
Proof.
  split.
  - destruct (gen_wave_returns Sine 1000 200 50 ltac:(lia)) as [bs Hbs].
    destruct (proj2 (playback_failure_is_not_fatal playback_fails [capture_fails]
                       Monitor.new (settings_at (-300)) [0; 0; 0] (-200) device_lost
                       eq_refl eq_refl eq_refl eq_refl
                       (loudness_zeros [0; 0; 0] ltac:(discriminate)
                          ltac:(repeat constructor))
                       ltac:(simpl; lra)
                       (or_intror (conj (ex_intro _ (bs, 44100%Z) Hbs) eq_refl))))
      as (m' & Hm' & _ & Hrun).
    exists m'. split; [exact Hrun|]. rewrite Hm'. split; reflexivity.
  - destruct (proj2 (playback_failure_is_not_fatal synthesis_fails [capture_fails]
                       Monitor.new loud_square_settings [0; 0; 0] (-200) StructError
                       eq_refl eq_refl eq_refl eq_refl
                       (loudness_zeros [0; 0; 0] ltac:(discriminate)
                          ltac:(repeat constructor))
                       ltac:(simpl; lra)
                       (or_introl loud_square_raises)))
      as (m' & Hm' & _ & Hrun).
    exists m'. split; [exact Hrun|]. rewrite Hm'. split; reflexivity.
Defined.
